(** * pykokkos/interface/type_inference.py

    A shallow embedding of the call-site argument unpacker [handle_args]
    and of the type-annotation inferencer [get_annotations], with the
    properties of both that the specification states.

    Python values are a tagged union, exceptions are an explicit error
    result, the [inferred_types] dict is a [gmap] and the [is_arg] set a
    [gset]. *)

From Stdlib Require Import ZArith DecimalString.
From stdpp Require Import gmap strings list fin_maps.

Open Scope Z_scope.

(** ** Exceptions and the error monad *)

(** The exceptions the module can raise.  [TypeError] and [ValueError] are
    raised explicitly, [AssertionError] by the [assert] statement,
    [IndexError] by indexing a list past its end. *)
Inductive PyExn : Type :=
  | TypeError
  | ValueError
  | IndexError
  | AssertionError.

Inductive result (A : Type) : Type :=
  | Ok (a : A)
  | Raise (e : PyExn).

Arguments Ok {A} a.
Arguments Raise {A} e.

#[global] Instance result_ret : MRet result := @Ok.

#[global] Instance result_bind : MBind result := λ A B k r,
  match r with
  | Ok a => k a
  | Raise e => Raise e
  end.

(** [for x in xs: s = body(x, s)], stopping at the first exception. *)
Fixpoint for_each {X S : Type} (body : X → S → result S) (xs : list X) (s : S)
  : result S :=
  match xs with
  | [] => Ok s
  | x :: xs' => s' ← body x s; for_each body xs' s'
  end.

(** ** Python values *)

(** Modelled from the spec: the execution-space type lives in
    [pykokkos.kokkos_manager], which is not part of this module; a space
    is identified by its name. *)
Definition ExecutionSpace : Type := string.

(** Modelled from the spec: the policy classes of [execution_policy.py],
    imported by this module.  Only the fields this module writes
    ([RangePolicy(space, begin, end)]) or reads ([MDRangePolicy.begin])
    are kept.  The four classes are distinct and none derives from
    another. *)
Inductive ExecutionPolicy : Type :=
  | RangePolicy (space : ExecutionSpace) (begin end_ : Z)
  | TeamThreadRange
  | TeamPolicy
  | MDRangePolicy (begin : list Z).

(** Modelled from the spec: an instance of [ViewType] from [views.py].
    [view_is_View] tells whether it is also an instance of [View]. *)
Record ViewObj : Type := {
  view_class : string;
  view_is_View : bool;
  view_shape : list Z;
  view_dtype_name : string
}.

(** An [inspect.Parameter] of a workunit's signature: its [name] and its
    [annotation], where [None] stands for [inspect._empty]. *)
Record Param : Type := {
  param_name : string;
  param_annotation : option string
}.

Inductive PyVal : Type :=
  | VNone
  | VBool (b : bool)
  | VInt (n : Z)
  | VFloat (bits : Z)
  | VStr (s : string)
  | VView (v : ViewObj)
  | VPolicy (p : ExecutionPolicy)
  | VCallable (parameters : list Param)
  | VObject (class_name : string).

(** [type(v).__name__] *)
Definition type_name (v : PyVal) : string :=
  match v with
  | VNone => "NoneType"
  | VBool _ => "bool"
  | VInt _ => "int"
  | VFloat _ => "float"
  | VStr _ => "str"
  | VView w => view_class w
  | VPolicy (RangePolicy _ _ _) => "RangePolicy"
  | VPolicy TeamThreadRange => "TeamThreadRange"
  | VPolicy TeamPolicy => "TeamPolicy"
  | VPolicy (MDRangePolicy _) => "MDRangePolicy"
  | VCallable _ => "function"
  | VObject c => c
  end.

(** [isinstance(v, str)], with the string when it holds. *)
Definition as_str (v : PyVal) : option string :=
  match v with
  | VStr s => Some s
  | _ => None
  end.

(** [isinstance(v, int)], with the integer when it holds; [bool] is a
    subclass of [int] and [True == 1]. *)
Definition as_int (v : PyVal) : option Z :=
  match v with
  | VInt n => Some n
  | VBool b => Some (Z.b2z b)
  | _ => None
  end.

(** [isinstance(v, (int, float))] *)
Definition is_numeric (v : PyVal) : bool :=
  match v with
  | VInt _ | VBool _ | VFloat _ => true
  | _ => false
  end.

(** [isinstance(v, ViewType)] *)
Definition is_ViewType (v : PyVal) : bool :=
  match v with
  | VView _ => true
  | _ => false
  end.

(** [isinstance(v, View)], with the view when it holds. *)
Definition as_View (v : PyVal) : option ViewObj :=
  match v with
  | VView w => if view_is_View w then Some w else None
  | _ => None
  end.

(** ** The two dataclasses *)

Record HandledArgs : Type := {
  name : option string;
  policy : PyVal;
  workunit : PyVal;
  view : option PyVal;
  initial_value : PyVal
}.

Record UpdatedTypes : Type := {
  ut_workunit : PyVal;
  inferred_types : gmap string string;
  is_arg : gset string
}.

(** ** [handle_args] *)

(** Lines 89-90: an [int] policy becomes
    [RangePolicy(km.get_default_space(), 0, policy)]. *)
Definition wrap_policy (default_space : ExecutionSpace) (p : PyVal) : PyVal :=
  match as_int p with
  | Some n => VPolicy (RangePolicy default_space 0 n)
  | None => p
  end.

(** [default_space] is what [km.get_default_space()] returns; [unpacked]
    is the tuple built from [*args]. *)
Definition handle_args (default_space : ExecutionSpace) (is_for : bool)
    (unpacked : list PyVal) : result HandledArgs :=
  fields ←
    match unpacked with
    | [u0; u1] => Ok (None, u0, u1, None, VInt 0)
    | [u0; u1; u2] =>
        match as_str u0 with
        | Some s => Ok (Some s, u1, u2, None, VInt 0)
        | None =>
            if is_for && is_ViewType u2 then Ok (None, u0, u1, Some u2, VInt 0)
            else if is_numeric u2 then Ok (None, u0, u1, None, u2)
            else Raise TypeError
        end
    | [u0; u1; u2; u3] =>
        match as_str u0 with
        | Some s =>
            if is_for && is_ViewType u3 then Ok (Some s, u1, u2, Some u3, VInt 0)
            else if is_numeric u3 then Ok (Some s, u1, u2, None, u3)
            else Raise TypeError
        | None => Raise TypeError
        end
    | _ => Raise ValueError
    end;
  let '(name_, policy_, workunit_, view_, initial_value_) := fields in
  Ok {| name := name_;
        policy := wrap_policy default_space policy_;
        workunit := workunit_;
        view := view_;
        initial_value := initial_value_ |}.

(** ** [get_annotations] *)

(** [inspect.signature(w).parameters.values()]: a [TypeError] when [w] is
    not callable. *)
Definition signature (w : PyVal) : result (list Param) :=
  match w with
  | VCallable parameters => Ok parameters
  | _ => Raise TypeError
  end.

(** [l[i]] for a Python integer [i]: a negative index counts from the end,
    an index out of range raises [IndexError]. *)
Definition py_index {A : Type} (l : list A) (i : Z) : result A :=
  let j := if i <? 0 then i + Z.of_nat (length l) else i in
  if j <? 0 then Raise IndexError
  else match l !! Z.to_nat j with
       | Some x => Ok x
       | None => Raise IndexError
       end.

(** [str(n)] for a length [n]. *)
Definition str_of_nat (n : nat) : string :=
  NilEmpty.string_of_uint (Nat.to_uint n).

(** Lines 113-118. *)
Definition policy_params (parallel_type : string) (pol : PyVal) : nat :=
  let n := match pol with
           | VPolicy (MDRangePolicy begin) => length begin
           | _ => 1%nat
           end in
  if String.eqb parallel_type "parallel_reduce" then (n + 1)%nat else n.

(** The two statements [updated_types.inferred_types[nm] = ty] and
    [updated_types.is_arg.add(nm)], which the source always runs together. *)
Definition record_type (nm ty : string) (ut : UpdatedTypes) : UpdatedTypes :=
  {| ut_workunit := ut_workunit ut;
     inferred_types := <[nm := ty]> (inferred_types ut);
     is_arg := {[nm]} ∪ is_arg ut |}.

(** Body of the loop of lines 120-150, at index [i]. *)
Definition policy_body (parallel_type : string) (pol : PyVal)
    (param_list : list Param) (i : nat) (ut : UpdatedTypes)
  : result UpdatedTypes :=
  param ← py_index param_list (Z.of_nat i);
  match param_annotation param with
  | Some _ => Ok ut
  | None =>
      ut1 ←
        match pol with
        | VPolicy (RangePolicy _ _ _) | VPolicy TeamThreadRange =>
            Ok (if (i =? 0)%nat then record_type (param_name param) "int" ut
                else ut)
        | VPolicy TeamPolicy =>
            Ok (if (i =? 0)%nat
                then record_type (param_name param) "pk.TeamMember" ut
                else ut)
        | VPolicy (MDRangePolicy begin) =>
            Ok (if (i <? length begin)%nat
                then record_type (param_name param) "int" ut
                else ut)
        | _ => Raise ValueError
        end;
      Ok (if (Z.of_nat i =? Z.of_nat (policy_params parallel_type pol) - 1)
             && String.eqb parallel_type "parallel_reduce"
          then record_type (param_name param) "Acc:float" ut1
          else ut1)
  end.

(** Lines 158-162: the values of the keyword arguments that name a
    parameter past the policy slots are appended to the argument list, in
    parameter order. *)
Definition queue_kwargs (passed_kwargs : gmap string PyVal)
    (params : list Param) (args_list : list PyVal) : list PyVal :=
  if (size passed_kwargs =? 0)%nat then args_list
  else foldl (λ acc param,
                match passed_kwargs !! param_name param with
                | Some v => acc ++ [v]
                | None => acc
                end) args_list params.

(** Line 166. *)
Definition value_idx (handled_args : HandledArgs) : Z :=
  match name handled_args with
  | Some _ => 3
  | None => 2
  end.

(** Lines 182-185. *)
Definition param_type (value : PyVal) : string :=
  match as_View value with
  | Some w =>
      "View" +:+ str_of_nat (length (view_shape w)) +:+ "D:"
        +:+ view_dtype_name w
  | None => type_name value
  end.

(** Body of the loop of lines 174-188, at index [i]. *)
Definition value_body (handled_args : HandledArgs) (pp : nat)
    (param_list : list Param) (args_list : list PyVal) (i : nat)
    (ut : UpdatedTypes) : result UpdatedTypes :=
  param ← py_index param_list (Z.of_nat i);
  match param_annotation param with
  | Some _ => Ok ut
  | None =>
      value ← py_index args_list
                (value_idx handled_args + Z.of_nat i - Z.of_nat pp);
      Ok (record_type (param_name param) (param_type value) ut)
  end.

(** Lines 154-155 and 190-193. *)
Definition return_types (ut : UpdatedTypes) : option UpdatedTypes :=
  if (size (inferred_types ut) =? 0)%nat then None else Some ut.

(** Line 111. *)
Definition fresh_types (handled_args : HandledArgs) : UpdatedTypes :=
  {| ut_workunit := workunit handled_args;
     inferred_types := ∅;
     is_arg := ∅ |}.

(** The loop of lines 120-150, [for i in range(policy_params)]. *)
Definition policy_loop (parallel_type : string) (pol : PyVal)
    (param_list : list Param) (ut : UpdatedTypes) : result UpdatedTypes :=
  for_each (policy_body parallel_type pol param_list)
    (seq 0 (policy_params parallel_type pol)) ut.

(** The loop of lines 174-188,
    [for i in range(policy_params, len(param_list))]. *)
Definition value_loop (handled_args : HandledArgs) (pp : nat)
    (param_list : list Param) (args_list : list PyVal) (ut : UpdatedTypes)
  : result UpdatedTypes :=
  for_each (value_body handled_args pp param_list args_list)
    (seq pp (length param_list - pp)) ut.

Definition get_annotations (parallel_type : string)
    (handled_args : HandledArgs) (args : list PyVal)
    (passed_kwargs : gmap string PyVal) : result (option UpdatedTypes) :=
  param_list ← signature (workunit handled_args);
  let pp := policy_params parallel_type (policy handled_args) in
  ut ← policy_loop parallel_type (policy handled_args) param_list
         (fresh_types handled_args);
  if (length param_list =? pp)%nat then Ok (return_types ut)
  else
    let args_list := queue_kwargs passed_kwargs (drop pp param_list) args in
    if Z.of_nat (length param_list) - Z.of_nat pp
         =? Z.of_nat (length args_list) - value_idx handled_args
    then
      ut' ← value_loop handled_args pp param_list args_list ut;
      Ok (return_types ut')
    else Raise AssertionError.

(** ** The contract of the unpacker *)

(** The contract of the unpacker as the specification words it, arity by
    arity and in its order of precedence, as a relation between the
    argument tuple and the outcome.  The policy of a record is the resolved
    one ([wrap_policy]). *)
Inductive handle_args_spec (default_space : ExecutionSpace) (is_for : bool)
  : list PyVal → result HandledArgs → Prop :=
  | spec_policy_workunit p w :
      handle_args_spec default_space is_for [p; w]
        (Ok {| name := None; policy := wrap_policy default_space p;
               workunit := w; view := None; initial_value := VInt 0 |})
  | spec_name_policy_workunit s p w :
      handle_args_spec default_space is_for [VStr s; p; w]
        (Ok {| name := Some s; policy := wrap_policy default_space p;
               workunit := w; view := None; initial_value := VInt 0 |})
  | spec_policy_workunit_view p w v :
      as_str p = None → is_for = true → is_ViewType v = true →
      handle_args_spec default_space is_for [p; w; v]
        (Ok {| name := None; policy := wrap_policy default_space p;
               workunit := w; view := Some v; initial_value := VInt 0 |})
  | spec_policy_workunit_initial p w x :
      as_str p = None → is_for && is_ViewType x = false →
      is_numeric x = true →
      handle_args_spec default_space is_for [p; w; x]
        (Ok {| name := None; policy := wrap_policy default_space p;
               workunit := w; view := None; initial_value := x |})
  | spec_three_wrong a b c :
      as_str a = None → is_for && is_ViewType c = false →
      is_numeric c = false →
      handle_args_spec default_space is_for [a; b; c] (Raise TypeError)
  | spec_name_policy_workunit_view s p w v :
      is_for = true → is_ViewType v = true →
      handle_args_spec default_space is_for [VStr s; p; w; v]
        (Ok {| name := Some s; policy := wrap_policy default_space p;
               workunit := w; view := Some v; initial_value := VInt 0 |})
  | spec_name_policy_workunit_initial s p w x :
      is_for && is_ViewType x = false → is_numeric x = true →
      handle_args_spec default_space is_for [VStr s; p; w; x]
        (Ok {| name := Some s; policy := wrap_policy default_space p;
               workunit := w; view := None; initial_value := x |})
  | spec_four_wrong_last s p w x :
      is_for && is_ViewType x = false → is_numeric x = false →
      handle_args_spec default_space is_for [VStr s; p; w; x] (Raise TypeError)
  | spec_four_wrong_first a b c d :
      as_str a = None →
      handle_args_spec default_space is_for [a; b; c; d] (Raise TypeError)
  | spec_wrong_arity args :
      length args ≠ 2%nat → length args ≠ 3%nat → length args ≠ 4%nat →
      handle_args_spec default_space is_for args (Raise ValueError).

(** ** Vocabulary for the properties of the inferencer *)

(** The policy is an instance of one of the four classes the inferencer
    knows. *)
Definition supported (pol : PyVal) : Prop := ∃ q, pol = VPolicy q.

(** [writes nm ut ut']: [ut'] is [ut] after some number of
    [record_type nm _]. *)
Inductive writes (nm : string) : UpdatedTypes → UpdatedTypes → Prop :=
  | writes_none ut : writes nm ut ut
  | writes_more ut ut' ty :
      writes nm ut ut' → writes nm ut (record_type nm ty ut').

(** The shape both loop bodies have at index [i]: an annotated parameter
    is skipped, an unannotated one has types recorded under its name. *)
Definition step_at (param_list : list Param) (i : nat)
    (ut ut' : UpdatedTypes) : Prop :=
  ∃ p, param_list !! i = Some p
       ∧ match param_annotation p with
         | Some _ => ut' = ut
         | None => writes (param_name p) ut ut'
         end.

(** The names recorded are names of unannotated parameters, the same in
    the mapping and in the set, and the workunit is the one passed in. *)
Definition well_recorded (w : PyVal) (param_list : list Param)
    (ut : UpdatedTypes) : Prop :=
  ut_workunit ut = w
  ∧ dom (inferred_types ut) = is_arg ut
  ∧ ∀ k, k ∈ is_arg ut →
         ∃ p, p ∈ param_list ∧ param_name p = k ∧ param_annotation p = None.

(** [nm] has a type satisfying [F] and is classified as an argument. *)
Definition recorded (nm : string) (F : string → Prop) (ut : UpdatedTypes)
  : Prop :=
  ∃ ty, inferred_types ut !! nm = Some ty ∧ nm ∈ is_arg ut ∧ F ty.

(** ** Calls used as examples *)

Definition unannotated (nm : string) : Param :=
  {| param_name := nm; param_annotation := None |}.

Definition annotated (nm ty : string) : Param :=
  {| param_name := nm; param_annotation := Some ty |}.

Definition call (nm : option string) (pol : PyVal) (params : list Param)
  : HandledArgs :=
  {| name := nm;
     policy := pol;
     workunit := VCallable params;
     view := None;
     initial_value := VInt 0 |}.

Definition range10 : PyVal := VPolicy (RangePolicy "OpenMP" 0 10).

(** [parallel_for(10, lambda i: ...)] after unpacking. *)
Definition range_for_one : HandledArgs := call None range10 [unannotated "i"].

(** [parallel_reduce(10, work)] with [def work(i, acc)]. *)
Definition range_reduce : HandledArgs :=
  call None range10 [unannotated "i"; unannotated "acc"].

(** The same with [def work(i, acc: pk.Acc[float])]. *)
Definition range_reduce_annotated : HandledArgs :=
  call None range10 [unannotated "i"; annotated "acc" "pk.Acc[float]"].

(** [parallel_for(MDRangePolicy([0,0,0], ...), work)] with
    [def work(i, j, k)]. *)
Definition mdrange3_for : HandledArgs :=
  call None (VPolicy (MDRangePolicy [0; 0; 0]))
    [unannotated "i"; unannotated "j"; unannotated "k"].

Definition view2d : PyVal :=
  VView {| view_class := "View"; view_is_View := true;
           view_shape := [4; 8]; view_dtype_name := "float64" |}.

(** [parallel_for("axpy", 10, work, v=view2d, n=3)] with
    [def work(i: int, v, n)]. *)
Definition named_for_view : HandledArgs :=
  call (Some "axpy") range10
    [annotated "i" "int"; unannotated "v"; unannotated "n"].

Definition named_for_view_args : list PyVal :=
  [VStr "axpy"; VInt 10; workunit named_for_view].

Definition named_for_view_kwargs : gmap string PyVal :=
  {[ "v" := view2d; "n" := VInt 3 ]}.

(** A policy object of a class the inferencer does not know. *)
Definition vector_range_for : HandledArgs :=
  call None (VObject "ThreadVectorRange") [unannotated "i"].

(** [parallel_for(10, work)] with [def work(i, x)]: one parameter past the
    policy slot, no argument for it. *)
Definition range_for_missing : HandledArgs :=
  call None range10 [unannotated "i"; unannotated "x"].

(** [parallel_for(10, work)] with [def work(i: int)]. *)
Definition range_for_annotated : HandledArgs :=
  call None range10 [annotated "i" "int"].

(** What the inferencer returns on some of these calls. *)

Definition range_reduce_types : UpdatedTypes :=
  {| ut_workunit := workunit range_reduce;
     inferred_types := {[ "i" := "int"; "acc" := "Acc:float" ]};
     is_arg := {[ "i"; "acc" ]} |}.

Definition range_reduce_annotated_types : UpdatedTypes :=
  {| ut_workunit := workunit range_reduce_annotated;
     inferred_types := {[ "i" := "int" ]};
     is_arg := {[ "i" ]} |}.

Definition mdrange3_types : UpdatedTypes :=
  {| ut_workunit := workunit mdrange3_for;
     inferred_types := {[ "i" := "int"; "j" := "int"; "k" := "int" ]};
     is_arg := {[ "i"; "j"; "k" ]} |}.

Definition named_for_view_types : UpdatedTypes :=
  {| ut_workunit := workunit named_for_view;
     inferred_types := {[ "v" := "View2D:float64"; "n" := "int" ]};
     is_arg := {[ "v"; "n" ]} |}.

(** [parallel_for(10, work, view2d)] with [def work(i, v)], after
    unpacking in for-mode: the view is passed by position. *)
Definition positional_view_args : list PyVal :=
  [VInt 10; VCallable [unannotated "i"; unannotated "v"]; view2d].

Definition positional_view : HandledArgs :=
  {| name := None;
     policy := range10;
     workunit := VCallable [unannotated "i"; unannotated "v"];
     view := Some view2d;
     initial_value := VInt 0 |}.

Definition positional_view_types : UpdatedTypes :=
  {| ut_workunit := workunit positional_view;
     inferred_types := {[ "i" := "int"; "v" := "View2D:float64" ]};
     is_arg := {[ "i"; "v" ]} |}.

(** * Properties *)

(** ** The unpacker *)

Lemma as_str_Some v s : as_str v = Some s → v = VStr s.
Proof. destruct v; simpl; congruence. Qed.

Lemma handle_args_sound ds is_for args :
  handle_args_spec ds is_for args (handle_args ds is_for args).
Proof.
  destruct args as [|u0 [|u1 [|u2 [|u3 [|u4 rest]]]]];
    try (apply spec_wrong_arity; simpl; lia).
  - apply spec_policy_workunit.
  - unfold handle_args.
    destruct (as_str u0) as [s|] eqn:Hs.
    + apply as_str_Some in Hs as ->. apply spec_name_policy_workunit.
    + destruct (is_for && is_ViewType u2) eqn:Hv.
      * apply andb_true_iff in Hv as [-> Hv].
        by apply spec_policy_workunit_view.
      * destruct (is_numeric u2) eqn:Hn.
        -- by apply spec_policy_workunit_initial.
        -- by apply spec_three_wrong.
  - unfold handle_args.
    destruct (as_str u0) as [s|] eqn:Hs.
    + apply as_str_Some in Hs as ->.
      destruct (is_for && is_ViewType u3) eqn:Hv.
      * apply andb_true_iff in Hv as [-> Hv].
        by apply spec_name_policy_workunit_view.
      * destruct (is_numeric u3) eqn:Hn.
        -- by apply spec_name_policy_workunit_initial.
        -- by apply spec_four_wrong_last.
    + by apply spec_four_wrong_first.
Qed.

Lemma handle_args_spec_complete ds is_for args r :
  handle_args_spec ds is_for args r → handle_args ds is_for args = r.
Proof.
  destruct 1; unfold handle_args; simpl;
    repeat match goal with
           | H : as_str _ = None |- _ => rewrite H
           | H : is_ViewType _ = true |- _ => rewrite H
           | H : is_numeric _ = _ |- _ => rewrite H
           | H : _ && _ = false |- _ => rewrite H
           | H : is_for = true |- _ => subst is_for
           end; simpl; try done.
  destruct args as [|u0 [|u1 [|u2 [|u3 [|u4 rest]]]]]; simpl in *; done.
Qed.

(** C2. The unpacker does exactly what its contract says: on every argument
    tuple its outcome (the record built, [TypeError] or [ValueError]) is
    the one the documented rules give, for two, three and four elements in
    their order of precedence and for every other arity. *)
Theorem handle_args_meets_spec ds is_for args r :
  handle_args ds is_for args = r ↔ handle_args_spec ds is_for args r.
Proof.
  split.
  - intros <-. apply handle_args_sound.
  - apply handle_args_spec_complete.
Qed.

Example handle_args_five_elements ds is_for a b c d e :
  handle_args ds is_for [a; b; c; d; e] = Raise ValueError.
Proof. reflexivity. Qed.

Example handle_args_third_is_None ds is_for w :
  handle_args ds is_for [VInt 10; w; VNone] = Raise TypeError.
Proof. by destruct is_for. Qed.

Lemma wrap_policy_cases ds p :
  (∀ n, as_int p = Some n → wrap_policy ds p = VPolicy (RangePolicy ds 0 n))
  ∧ (as_int p = None → wrap_policy ds p = p).
Proof. unfold wrap_policy. destruct (as_int p); split; congruence. Qed.

(** C3. When the unpacker returns a record, the policy it resolved is the
    raw element after the name (index 1 with a name, 0 without); if that
    element is an integer [n] the record holds
    [RangePolicy(default_space, 0, n)], otherwise the element itself. *)
Theorem handle_args_policy_normalized ds is_for args ha :
  handle_args ds is_for args = Ok ha →
  ∃ p, args !! match name ha with Some _ => 1%nat | None => 0%nat end = Some p
       ∧ (∀ n, as_int p = Some n → policy ha = VPolicy (RangePolicy ds 0 n))
       ∧ (as_int p = None → policy ha = p).
Proof.
  intros H. pose proof (handle_args_sound ds is_for args) as Hspec.
  rewrite H in Hspec. clear H. rename Hspec into H.
  inversion H; subst; simpl; eexists;
    (split; [reflexivity | apply wrap_policy_cases]).
Qed.

Lemma handle_args_policy_normalized_witness :
  ∃ p, [VInt 10; workunit range_for_one]
         !! match name range_for_one with Some _ => 1%nat | None => 0%nat end
       = Some p
       ∧ (∀ n, as_int p = Some n →
               policy range_for_one = VPolicy (RangePolicy "OpenMP" 0 n))
       ∧ (as_int p = None → policy range_for_one = p).
Proof.
  apply (handle_args_policy_normalized "OpenMP" true
           [VInt 10; workunit range_for_one] range_for_one).
  reflexivity.
Defined.

(** ** Loops and indexing *)

Lemma py_index_nat {A : Type} (l : list A) (i : nat) :
  py_index l (Z.of_nat i)
  = match l !! i with Some x => Ok x | None => Raise IndexError end.
Proof.
  unfold py_index.
  destruct (Z.ltb_spec (Z.of_nat i) 0) as [Hneg|_]; [lia|].
  destruct (Z.ltb_spec (Z.of_nat i) 0) as [Hneg|_]; [lia|].
  by rewrite Nat2Z.id.
Qed.

Lemma py_index_Ok {A : Type} (l : list A) (i : Z) (x : A) :
  0 ≤ i → py_index l i = Ok x ↔ l !! Z.to_nat i = Some x.
Proof.
  intros Hi. unfold py_index.
  destruct (Z.ltb_spec i 0) as [Hneg|_]; [lia|].
  destruct (Z.ltb_spec i 0) as [Hneg|_]; [lia|].
  destruct (l !! Z.to_nat i); split; congruence.
Qed.

Lemma for_each_invariant {X S : Type} (P : S → Prop)
    (body : X → S → result S) (xs : list X) :
  (∀ x s s', x ∈ xs → P s → body x s = Ok s' → P s') →
  ∀ s s', P s → for_each body xs s = Ok s' → P s'.
Proof.
  induction xs as [|x xs IH]; intros Hbody s s' Hs Hrun; simpl in Hrun.
  - congruence.
  - destruct (body x s) as [s1|e] eqn:Hx; simpl in Hrun; [|done].
    apply (IH (λ y t t' Hy, Hbody y t t' (list_elem_of_further _ _ _ Hy)) s1);
      [|done].
    apply (Hbody x s); [left|done..].
Qed.

(** What one iteration establishes, the later ones keeping it, holds at
    the end of the loop. *)
Lemma for_each_establish {X S : Type} (Q : S → Prop)
    (body : X → S → result S) (xs : list X) (i : X) :
  i ∈ xs →
  (∀ s s', body i s = Ok s' → Q s') →
  (∀ x s s', x ∈ xs → Q s → body x s = Ok s' → Q s') →
  ∀ s s', for_each body xs s = Ok s' → Q s'.
Proof.
  intros Hi Hest Hkeep.
  induction xs as [|x xs IH]; intros s s' Hrun; [by inversion Hi|].
  simpl in Hrun.
  destruct (body x s) as [s1|e] eqn:Hx; simpl in Hrun; [|done].
  apply elem_of_cons in Hi as [->|Hi].
  - eapply (for_each_invariant Q); [|by eapply Hest|done].
    intros y t t' Hy. apply Hkeep. by right.
  - eapply IH; [done| |done].
    intros y t t' Hy. apply Hkeep. by right.
Qed.

Lemma for_each_total {X S : Type} (body : X → S → result S) (xs : list X) :
  (∀ x s, x ∈ xs → ∃ s', body x s = Ok s') →
  ∀ s, ∃ s', for_each body xs s = Ok s'.
Proof.
  induction xs as [|x xs IH]; intros Hbody s; simpl; [eauto|].
  destruct (Hbody x s) as [s1 ->]; [left|]. simpl.
  apply IH. intros y t Hy. apply Hbody. by right.
Qed.

(** ** Recording types *)

Lemma writes_once nm ty ut : writes nm ut (record_type nm ty ut).
Proof. apply writes_more, writes_none. Qed.

Lemma writes_dom nm ut ut' :
  writes nm ut ut' →
  dom (inferred_types ut) = is_arg ut →
  dom (inferred_types ut') = is_arg ut'.
Proof.
  induction 1 as [|ut ut' ty _ IH]; [done|].
  intros Hdom. simpl. rewrite dom_insert_L. by rewrite IH.
Qed.

Lemma writes_workunit nm ut ut' :
  writes nm ut ut' → ut_workunit ut' = ut_workunit ut.
Proof. induction 1; simpl; congruence. Qed.

Lemma writes_lookup_ne nm ut ut' k :
  writes nm ut ut' → k ≠ nm →
  inferred_types ut' !! k = inferred_types ut !! k
  ∧ (k ∈ is_arg ut' ↔ k ∈ is_arg ut).
Proof.
  induction 1 as [|ut ut' ty _ IH]; [done|].
  intros Hk. destruct (IH Hk) as [IH1 IH2]. simpl.
  rewrite lookup_insert_ne by done. split; [done|].
  rewrite elem_of_union, elem_of_singleton. tauto.
Qed.

Lemma writes_keeps_key nm ut ut' k :
  writes nm ut ut' →
  is_Some (inferred_types ut !! k) → is_Some (inferred_types ut' !! k).
Proof.
  induction 1 as [|ut ut' ty _ IH]; [done|].
  intros Hk. simpl. destruct (decide (nm = k)) as [->|Hne].
  - rewrite lookup_insert_eq. eauto.
  - rewrite lookup_insert_ne by done. auto.
Qed.

Lemma writes_keys_from nm ut ut' k :
  writes nm ut ut' → k ∈ is_arg ut' → k ∈ is_arg ut ∨ k = nm.
Proof.
  induction 1 as [|ut ut' ty _ IH]; [auto|].
  simpl. rewrite elem_of_union, elem_of_singleton. tauto.
Qed.

Lemma record_type_recorded nm ty ut :
  inferred_types (record_type nm ty ut) !! nm = Some ty
  ∧ nm ∈ is_arg (record_type nm ty ut).
Proof.
  simpl. split; [apply lookup_insert_eq|].
  apply elem_of_union_l, elem_of_singleton. done.
Qed.

Lemma return_types_None ut :
  return_types ut = None ↔ inferred_types ut = ∅.
Proof.
  unfold return_types. rewrite <- map_size_empty_iff.
  destruct (Nat.eqb_spec (size (inferred_types ut)) 0); split; congruence.
Qed.

Lemma return_types_Some ut ut' :
  return_types ut = Some ut' → ut' = ut ∧ inferred_types ut ≠ ∅.
Proof.
  intros H. destruct (return_types ut) eqn:Hr; [|done].
  split.
  - unfold return_types in Hr. destruct (_ =? _)%nat; congruence.
  - intros Hempty%return_types_None. congruence.
Qed.

(** ** What one iteration of each loop does *)

Lemma policy_body_Ok pt pol params i ut ut' :
  policy_body pt pol params i ut = Ok ut' → step_at params i ut ut'.
Proof.
  unfold policy_body, step_at. rewrite py_index_nat.
  destruct (params !! i) as [p|]; simpl; [|done].
  intros H. exists p. split; [done|].
  destruct (param_annotation p); [congruence|].
  destruct pol as [| | | | | |[]| |]; simpl in H; try done;
    repeat match type of H with
           | context [if ?c then _ else _] => destruct c
           end; inversion H;
    repeat first [apply writes_none | apply writes_more].
Qed.

Lemma value_body_Ok ha pp params args_list i ut ut' :
  value_body ha pp params args_list i ut = Ok ut' →
  ∃ p, params !! i = Some p
       ∧ match param_annotation p with
         | Some _ => ut' = ut
         | None =>
             ∃ value,
               py_index args_list (value_idx ha + Z.of_nat i - Z.of_nat pp)
               = Ok value
               ∧ ut' = record_type (param_name p) (param_type value) ut
         end.
Proof.
  unfold value_body. rewrite py_index_nat.
  destruct (params !! i) as [p|]; simpl; [|done].
  intros H. exists p. split; [done|].
  destruct (param_annotation p); [congruence|].
  destruct (py_index args_list _) as [value|]; simpl in H; [|done].
  exists value. split; congruence.
Qed.

Lemma value_body_step ha pp params args_list i ut ut' :
  value_body ha pp params args_list i ut = Ok ut' → step_at params i ut ut'.
Proof.
  intros (p & Hp & H)%value_body_Ok. exists p. split; [done|].
  destruct (param_annotation p); [done|].
  destruct H as (value & _ & ->). apply writes_once.
Qed.

Lemma reduce_eqb pt :
  String.eqb pt "parallel_reduce" = bool_decide (pt = "parallel_reduce").
Proof.
  destruct (String.eqb_spec pt "parallel_reduce").
  - by rewrite bool_decide_eq_true_2.
  - by rewrite bool_decide_eq_false_2.
Qed.

(** An unannotated parameter in a policy slot always gets a type from a
    supported policy, and which one. *)
Lemma policy_body_records pt pol params i p ut ut' :
  params !! i = Some p → param_annotation p = None →
  (i < policy_params pt pol)%nat →
  policy_body pt pol params i ut = Ok ut' →
  recorded (param_name p)
    (λ ty,
       (pt = "parallel_reduce" → S i = policy_params pt pol →
        ty = "Acc:float")
       ∧ match pol with
         | VPolicy (RangePolicy _ _ _) | VPolicy TeamThreadRange =>
             (i = 0%nat → ty = "int") ∧ (i ≠ 0%nat → ty = "Acc:float")
         | VPolicy TeamPolicy =>
             (i = 0%nat → ty = "pk.TeamMember")
             ∧ (i ≠ 0%nat → ty = "Acc:float")
         | VPolicy (MDRangePolicy begin) =>
             ((i < length begin)%nat → ty = "int")
             ∧ (¬ (i < length begin)%nat → ty = "Acc:float")
         | _ => False
         end) ut'.
Proof.
  intros Hp Hann Hi. unfold policy_body, recorded.
  rewrite py_index_nat, Hp. simpl.
  rewrite Hann. revert Hi. unfold policy_params. rewrite reduce_eqb.
  destruct pol as [| | | | | |[]| |]; simpl; try done;
    case_bool_decide as Hpt; intros Hi H;
    repeat match type of H with
           | context [(?a =? ?b)%nat] => destruct (Nat.eqb_spec a b)
           | context [(?a <? ?b)%nat] => destruct (Nat.ltb_spec a b)
           | context [?a =? ?b] => destruct (Z.eqb_spec a b)
           end; simpl in H; inversion H; subst ut';
    try lia;
    (eexists; split; [apply record_type_recorded|];
     split; [apply record_type_recorded|];
     repeat split; intros; first [done | lia]).
Qed.

Lemma policy_body_unsupported pt pol params i q ut :
  ¬ supported pol → params !! i = Some q →
  policy_body pt pol params i ut
  = match param_annotation q with
    | Some _ => Ok ut
    | None => Raise ValueError
    end.
Proof.
  intros Hpol Hq. unfold policy_body. rewrite py_index_nat, Hq. simpl.
  destruct (param_annotation q); [done|].
  destruct pol as [| | | | | |q'| |]; try done.
  destruct Hpol. by exists q'.
Qed.

(** ** One call of the inferencer *)

Section Inference.

Variable parallel_type : string.
Variable handled_args : HandledArgs.
Variable args : list PyVal.
Variable passed_kwargs : gmap string PyVal.
Variable param_list : list Param.

Hypothesis Hsignature : signature (workunit handled_args) = Ok param_list.

Local Abbreviation pol := (policy handled_args).
Local Abbreviation pp := (policy_params parallel_type (policy handled_args)).
Local Abbreviation args_list :=
  (queue_kwargs passed_kwargs (drop pp param_list) args).
Local Abbreviation fresh := (fresh_types handled_args).
Local Abbreviation run_policy_loop := (policy_loop parallel_type pol param_list).
Local Abbreviation run_value_loop :=
  (value_loop handled_args pp param_list args_list).
(** The two counts the assertion of line 168 compares. *)
Local Abbreviation counts_match :=
  (Z.of_nat (length param_list) - Z.of_nat pp
   = Z.of_nat (length args_list) - value_idx handled_args).

Lemma get_annotations_unfold :
  get_annotations parallel_type handled_args args passed_kwargs
  = (ut ← run_policy_loop fresh;
     if (length param_list =? pp)%nat then Ok (return_types ut)
     else if Z.of_nat (length param_list) - Z.of_nat pp
               =? Z.of_nat (length args_list) - value_idx handled_args
          then ut' ← run_value_loop ut; Ok (return_types ut')
          else Raise AssertionError).
Proof. unfold get_annotations. by rewrite Hsignature. Qed.

Lemma policy_loop_in_range ut ut' :
  run_policy_loop ut = Ok ut' → (pp ≤ length param_list)%nat.
Proof.
  intros Hrun. destruct (decide (pp = 0%nat)) as [Hpp|Hpp]; [lia|].
  assert (Hlast : is_Some (param_list !! (pp - 1)%nat)).
  { eapply (for_each_establish (λ _, is_Some (param_list !! (pp - 1)%nat))
              _ (seq 0 pp) (pp - 1)%nat); [| |done|exact Hrun].
    - apply elem_of_seq. lia.
    - intros s s' (p & Hp & _)%policy_body_Ok. eauto. }
  apply lookup_lt_is_Some in Hlast. lia.
Qed.

(** A normal return, taken apart: both loops ran to their end (the second
    one over an empty range when line 155 returns). *)
Lemma get_annotations_Ok r :
  get_annotations parallel_type handled_args args passed_kwargs = Ok r →
  ∃ ut0 ut,
    run_policy_loop fresh = Ok ut0 ∧ run_value_loop ut0 = Ok ut
    ∧ r = return_types ut
    ∧ (pp ≤ length param_list)%nat
    ∧ ((pp < length param_list)%nat → counts_match).
Proof.
  rewrite get_annotations_unfold.
  destruct (run_policy_loop fresh) as [ut0|] eqn:Hloop; simpl; [|done].
  pose proof (policy_loop_in_range _ _ Hloop) as Hle.
  destruct (Nat.eqb_spec (length param_list) pp) as [Heq|Hne].
  - intros [= <-]. exists ut0, ut0. repeat split; [|done|lia].
    unfold value_loop. by rewrite Heq, Nat.sub_diag.
  - destruct (Z.eqb_spec (Z.of_nat (length param_list) - Z.of_nat pp)
                (Z.of_nat (length args_list) - value_idx handled_args))
      as [Hcount|]; [|done].
    destruct (run_value_loop ut0) as [ut|] eqn:Hvalues; simpl; [|done].
    intros [= <-]. by exists ut0, ut.
Qed.

(** *** Only unannotated parameters are recorded *)

Lemma well_recorded_fresh :
  well_recorded (workunit handled_args) param_list fresh.
Proof.
  split; [done|]. split; [apply dom_empty_L|].
  intros k Hk. by apply not_elem_of_empty in Hk.
Qed.

Lemma well_recorded_step w i (ut ut' : UpdatedTypes) :
  step_at param_list i ut ut' →
  well_recorded w param_list ut → well_recorded w param_list ut'.
Proof.
  intros (p & Hp & Hstep) (Hw & Hdom & Hnames).
  destruct (param_annotation p) eqn:Hann; [by subst|].
  split; [by rewrite (writes_workunit _ _ _ Hstep)|].
  split; [by eapply writes_dom|].
  intros k Hk. destruct (writes_keys_from _ _ _ _ Hstep Hk) as [Hold| ->].
  - auto.
  - exists p. split; [|done]. by eapply list_elem_of_lookup_2.
Qed.

Lemma loops_well_recorded ut0 ut :
  run_policy_loop fresh = Ok ut0 → run_value_loop ut0 = Ok ut →
  well_recorded (workunit handled_args) param_list ut.
Proof.
  intros Hpolicy Hvalues.
  eapply (for_each_invariant (well_recorded _ param_list));
    [| |exact Hvalues].
  { intros i s s' _ Hs Hbody%value_body_step.
    by eapply well_recorded_step. }
  eapply (for_each_invariant (well_recorded _ param_list));
    [|apply well_recorded_fresh|exact Hpolicy].
  intros i s s' _ Hs Hbody%policy_body_Ok.
  by eapply well_recorded_step.
Qed.

(** *** Every unannotated parameter gets a type *)

Lemma step_at_keeps_key i ut ut' k :
  step_at param_list i ut ut' →
  is_Some (inferred_types ut !! k) → is_Some (inferred_types ut' !! k).
Proof.
  intros (p & _ & Hstep). destruct (param_annotation p); [by subst|].
  by eapply writes_keeps_key.
Qed.

Lemma loops_record_every_name ut0 ut i p :
  run_policy_loop fresh = Ok ut0 → run_value_loop ut0 = Ok ut →
  param_list !! i = Some p → param_annotation p = None →
  is_Some (inferred_types ut !! param_name p).
Proof.
  intros Hpolicy Hvalues Hp Hann.
  set (K := λ s : UpdatedTypes, is_Some (inferred_types s !! param_name p)).
  destruct (decide (i < pp)%nat) as [Hslot|Hpast].
  - eapply (for_each_invariant K); [| |exact Hvalues].
    { intros j s s' _ Hs Hj%value_body_step.
      by eapply step_at_keeps_key. }
    eapply (for_each_establish K _ (seq 0 pp) i); [| | |exact Hpolicy].
    + apply elem_of_seq. lia.
    + intros s s' Hbody.
      destruct (policy_body_records _ _ _ _ _ _ _ Hp Hann Hslot Hbody)
        as (ty & Hty & _). unfold K. rewrite Hty. eauto.
    + intros j s s' _ Hs Hj%policy_body_Ok.
      by eapply step_at_keeps_key.
  - eapply (for_each_establish K _ _ i); [| | |exact Hvalues].
    + apply lookup_lt_Some in Hp. apply elem_of_seq. lia.
    + intros s s' (q & Hq & Hbody)%value_body_Ok.
      rewrite Hp in Hq. injection Hq as <-. rewrite Hann in Hbody.
      destruct Hbody as (value & _ & ->). unfold K. simpl.
      rewrite lookup_insert_eq. eauto.
    + intros j s s' _ Hs Hj%value_body_step.
      by eapply step_at_keeps_key.
Qed.

(** *** An unsupported policy *)

Lemma unsupported_policy_loop i p :
  ¬ supported pol →
  param_list !! i = Some p → param_annotation p = None →
  ∀ n start ut, (start ≤ i < start + n)%nat →
    for_each (policy_body parallel_type pol param_list) (seq start n) ut
    = Raise ValueError.
Proof.
  intros Hpol Hp Hann. induction n as [|n IH]; intros start ut Hi; [lia|].
  destruct (lookup_lt_is_Some_2 param_list start) as [q Hq].
  { apply lookup_lt_Some in Hp. lia. }
  cbn [seq for_each]. rewrite (policy_body_unsupported _ _ _ _ q) by done.
  destruct (param_annotation q) as [a|] eqn:Hq_ann; [|done].
  simpl. apply IH. destruct (decide (start = i)) as [->|]; [|lia].
  congruence.
Qed.

(** *** When the call returns *)

Lemma policy_loop_total ut :
  (pp ≤ length param_list)%nat →
  supported pol
  ∨ (∀ i p, (i < pp)%nat → param_list !! i = Some p →
            is_Some (param_annotation p)) →
  ∃ ut', run_policy_loop ut = Ok ut'.
Proof.
  intros Hle Hpol. apply for_each_total. clear ut.
  intros i ut [_ Hi]%elem_of_seq.
  destruct (lookup_lt_is_Some_2 param_list i) as [p Hp]; [lia|].
  unfold policy_body. rewrite py_index_nat, Hp. simpl.
  destruct (param_annotation p) as [a|] eqn:Hann; [eauto|].
  destruct Hpol as [[q Hq]|Hall].
  - rewrite Hq. destruct q; simpl; eauto.
  - destruct (Hall i p) as [a Ha]; [lia|done|congruence].
Qed.

Lemma value_idx_cases :
  value_idx handled_args
  = match name handled_args with Some _ => 3 | None => 2 end
  ∧ 2 ≤ value_idx handled_args.
Proof. unfold value_idx. destruct (name handled_args); split; (done || lia). Qed.

Lemma value_loop_total ut :
  (pp ≤ length param_list)%nat → counts_match →
  ∃ ut', run_value_loop ut = Ok ut'.
Proof.
  intros Hle Hcount. apply for_each_total. clear ut.
  intros i ut [Hlo Hhi]%elem_of_seq.
  destruct (lookup_lt_is_Some_2 param_list i) as [p Hp]; [lia|].
  unfold value_body. rewrite py_index_nat, Hp. simpl.
  destruct (param_annotation p) as [a|]; [eauto|].
  destruct value_idx_cases as [_ Hidx].
  destruct (lookup_lt_is_Some_2 args_list
              (Z.to_nat (value_idx handled_args + Z.of_nat i - Z.of_nat pp)))
    as [value Hvalue]; [lia|].
  apply py_index_Ok in Hvalue as ->; [simpl; eauto|lia].
Qed.

Lemma get_annotations_total :
  (pp ≤ length param_list)%nat →
  supported pol
  ∨ (∀ i p, (i < pp)%nat → param_list !! i = Some p →
            is_Some (param_annotation p)) →
  ((pp < length param_list)%nat → counts_match) →
  ∃ r, get_annotations parallel_type handled_args args passed_kwargs = Ok r.
Proof.
  intros Hle Hpol Hcount. rewrite get_annotations_unfold.
  destruct (policy_loop_total fresh Hle Hpol) as [ut0 ->]. simpl.
  destruct (Nat.eqb_spec (length param_list) pp) as [Heq|Hne]; [eauto|].
  assert (Hc : counts_match) by (apply Hcount; lia).
  rewrite Hc, Z.eqb_refl.
  destruct (value_loop_total ut0 Hle Hc) as [ut ->]. simpl. eauto.
Qed.

(** *** Which type, when parameter names are distinct *)

Hypothesis Hnames : NoDup (param_name <$> param_list).

Lemma distinct_names i j p q :
  param_list !! i = Some p → param_list !! j = Some q → i ≠ j →
  param_name q ≠ param_name p.
Proof.
  intros Hp Hq Hij Heq. apply Hij.
  apply (NoDup_lookup _ i j (param_name p) Hnames);
    rewrite list_lookup_fmap;
    [by rewrite Hp|rewrite Hq; simpl; by rewrite Heq].
Qed.

Lemma step_at_keeps_recorded i j p F ut ut' :
  param_list !! i = Some p → i ≠ j → step_at param_list j ut ut' →
  recorded (param_name p) F ut → recorded (param_name p) F ut'.
Proof.
  intros Hp Hij (q & Hq & Hstep) (ty & Hty & Harg & HF).
  destruct (param_annotation q); [subst; by exists ty|].
  pose proof (distinct_names _ _ _ _ Hq Hp (not_eq_sym Hij)) as Hne.
  destruct (writes_lookup_ne _ _ _ _ Hstep Hne) as [Hlook Hin].
  exists ty. rewrite Hlook. by rewrite Hin.
Qed.

(** Applied to either loop: what iteration [i] records for its parameter
    is still there after the loop. *)
Lemma loop_records (body : nat → UpdatedTypes → result UpdatedTypes)
    (idxs : list nat) i p F :
  (∀ j s s', body j s = Ok s' → step_at param_list j s s') →
  param_list !! i = Some p → i ∈ idxs →
  (∀ s s', body i s = Ok s' → recorded (param_name p) F s') →
  ∀ s s', for_each body idxs s = Ok s' → recorded (param_name p) F s'.
Proof.
  intros Hstep Hp Hi Hest. apply (for_each_establish _ _ _ i); [done..|].
  intros j s s' _ Hs Hj. destruct (decide (i = j)) as [<-|Hij]; [eauto|].
  eapply step_at_keeps_recorded; eauto.
Qed.

Lemma loop_keeps_recorded (body : nat → UpdatedTypes → result UpdatedTypes)
    (idxs : list nat) i p F :
  (∀ j s s', body j s = Ok s' → step_at param_list j s s') →
  param_list !! i = Some p → i ∉ idxs →
  ∀ s s', recorded (param_name p) F s →
          for_each body idxs s = Ok s' → recorded (param_name p) F s'.
Proof.
  intros Hstep Hp Hi. apply for_each_invariant.
  intros j s s' Hj Hs Hbody.
  eapply (step_at_keeps_recorded i j); eauto. by intros ->.
Qed.

Lemma policy_slot_recorded ut0 ut i p :
  run_policy_loop fresh = Ok ut0 → run_value_loop ut0 = Ok ut →
  (i < pp)%nat → param_list !! i = Some p → param_annotation p = None →
  recorded (param_name p)
    (λ ty,
       (parallel_type = "parallel_reduce" → S i = pp → ty = "Acc:float")
       ∧ match pol with
         | VPolicy (RangePolicy _ _ _) | VPolicy TeamThreadRange =>
             (i = 0%nat → ty = "int") ∧ (i ≠ 0%nat → ty = "Acc:float")
         | VPolicy TeamPolicy =>
             (i = 0%nat → ty = "pk.TeamMember")
             ∧ (i ≠ 0%nat → ty = "Acc:float")
         | VPolicy (MDRangePolicy begin) =>
             ((i < length begin)%nat → ty = "int")
             ∧ (¬ (i < length begin)%nat → ty = "Acc:float")
         | _ => False
         end) ut.
Proof.
  intros Hpolicy Hvalues Hslot Hp Hann.
  eapply (loop_keeps_recorded _ _ i);
    [apply value_body_step|done| | |exact Hvalues].
  { rewrite elem_of_seq. lia. }
  eapply (loop_records _ _ i);
    [apply policy_body_Ok|done| | |exact Hpolicy].
  { rewrite elem_of_seq. lia. }
  intros s s' Hbody.
  exact (policy_body_records _ _ _ _ _ _ _ Hp Hann Hslot Hbody).
Qed.

Lemma value_slot_recorded ut0 ut i p :
  run_value_loop ut0 = Ok ut →
  (pp ≤ i)%nat → param_list !! i = Some p → param_annotation p = None →
  recorded (param_name p)
    (λ ty, ∃ value,
       py_index args_list (value_idx handled_args + Z.of_nat i - Z.of_nat pp)
       = Ok value
       ∧ ty = param_type value) ut.
Proof.
  intros Hvalues Hpast Hp Hann.
  eapply (loop_records _ _ i);
    [apply value_body_step|done| | |exact Hvalues].
  { apply lookup_lt_Some in Hp. rewrite elem_of_seq. lia. }
  intros s s' (q & Hq & Hbody)%value_body_Ok.
  rewrite Hp in Hq. injection Hq as <-. rewrite Hann in Hbody.
  destruct Hbody as (value & Hvalue & ->).
  exists (param_type value).
  split; [apply record_type_recorded|].
  split; [apply record_type_recorded|]. by exists value.
Qed.

End Inference.

(** ** The claims about the inferencer *)

Lemma return_types_of_key ut k ty :
  inferred_types ut !! k = Some ty → return_types ut = Some ut.
Proof.
  intros Hk. destruct (return_types ut) as [ut'|] eqn:Hr.
  - by apply return_types_Some in Hr as [-> _].
  - apply return_types_None in Hr. rewrite Hr in Hk. by rewrite lookup_empty in Hk.
Qed.

Lemma policy_params_count pt pol :
  policy_params pt pol
  = (match pol with
     | VPolicy (MDRangePolicy begin) => length begin
     | _ => 1
     end + if bool_decide (pt = "parallel_reduce") then 1 else 0)%nat.
Proof.
  unfold policy_params. rewrite reduce_eqb.
  case_bool_decide; [done|]. by rewrite Nat.add_0_r.
Qed.

(** C1, amended to the parameters the inferencer looks at.  On a
    [parallel_reduce] dispatch that returns, if the last policy-slot
    parameter (index [policy_params - 1]) has no annotation, the result is
    present, maps that parameter to ["Acc:float"] and classifies it as an
    argument.  Parameter names are distinct, as in every Python
    signature. *)
Theorem reduce_accumulator_gets_Acc ha args kw params r p :
  signature (workunit ha) = Ok params →
  NoDup (param_name <$> params) →
  get_annotations "parallel_reduce" ha args kw = Ok r →
  params !! (policy_params "parallel_reduce" (policy ha) - 1)%nat = Some p →
  param_annotation p = None →
  ∃ ut, r = Some ut
        ∧ inferred_types ut !! param_name p = Some "Acc:float"
        ∧ param_name p ∈ is_arg ut.
Proof.
  intros Hsig Hnames Hrun Hp Hann.
  destruct (get_annotations_Ok _ _ _ _ _ Hsig _ Hrun)
    as (ut0 & ut & Hpolicy & Hvalues & -> & _).
  pose proof (policy_params_count "parallel_reduce" (policy ha)) as Hpp.
  rewrite bool_decide_eq_true_2 in Hpp by done.
  assert (Hslot : (policy_params "parallel_reduce" (policy ha) - 1
                   < policy_params "parallel_reduce" (policy ha))%nat) by lia.
  destruct (policy_slot_recorded _ _ _ _ _ Hnames ut0 ut _ p
              Hpolicy Hvalues Hslot Hp Hann)
    as (ty & Hty & Harg & Hacc & _).
  rewrite Hacc in Hty by (done || lia).
  exists ut. by rewrite (return_types_of_key _ _ _ Hty).
Qed.

Lemma reduce_accumulator_gets_Acc_witness :
  ∃ ut,
    Some range_reduce_types = Some ut
    ∧ inferred_types ut !! param_name (unannotated "acc") = Some "Acc:float"
    ∧ param_name (unannotated "acc") ∈ is_arg ut.
Proof.
  apply (reduce_accumulator_gets_Acc range_reduce
           [range10; workunit range_reduce] ∅
           [unannotated "i"; unannotated "acc"]).
  - reflexivity.
  - compute_done.
  - vm_compute. reflexivity.
  - reflexivity.
  - reflexivity.
Defined.

(** C1 as stated fails where the accumulator carries an annotation: on
    [parallel_reduce(10, work)] with [def work(i, acc: pk.Acc[float])] the
    inferencer returns the types of [i] alone, and the last policy-slot
    parameter [acc] (index [2 - 1]) has no inferred type. *)
Lemma reduce_annotated_accumulator_not_inferred :
  get_annotations "parallel_reduce" range_reduce_annotated
    [range10; workunit range_reduce_annotated] ∅
  = Ok (Some range_reduce_annotated_types)
  ∧ [unannotated "i"; annotated "acc" "pk.Acc[float]"]
      !! (policy_params "parallel_reduce" (policy range_reduce_annotated) - 1)%nat
    = Some (annotated "acc" "pk.Acc[float]")
  ∧ ¬ ∃ ut,
        get_annotations "parallel_reduce" range_reduce_annotated
          [range10; workunit range_reduce_annotated] ∅ = Ok (Some ut)
        ∧ inferred_types ut !! "acc" = Some "Acc:float".
Proof.
  assert (Hrun :
    get_annotations "parallel_reduce" range_reduce_annotated
      [range10; workunit range_reduce_annotated] ∅
    = Ok (Some range_reduce_annotated_types)) by (vm_compute; reflexivity).
  split; [exact Hrun|]. split; [reflexivity|].
  intros (ut & Hut & Hacc). rewrite Hrun in Hut.
  injection Hut as <-. simpl in Hacc.
  by rewrite lookup_singleton_ne in Hacc.
Qed.

(** C4. The number of policy slots is 1 (the length of [begin] for an
    [MDRangePolicy]), plus 1 for [parallel_reduce].  When the inferencer
    returns, every unannotated parameter in a policy slot has an inferred
    type in the result and is classified as an argument: with a
    [RangePolicy] or a [TeamThreadRange] the first parameter, and only it,
    gets ["int"]; with a [TeamPolicy] the first one gets ["pk.TeamMember"];
    with an [MDRangePolicy] every parameter below the dimensionality gets
    ["int"].  A policy of another class never gets this far. *)
Theorem policy_slots_inferred pt ha args kw params r :
  signature (workunit ha) = Ok params →
  NoDup (param_name <$> params) →
  get_annotations pt ha args kw = Ok r →
  policy_params pt (policy ha)
  = (match policy ha with
     | VPolicy (MDRangePolicy begin) => length begin
     | _ => 1
     end + if bool_decide (pt = "parallel_reduce") then 1 else 0)%nat
  ∧ ∀ i p,
      (i < policy_params pt (policy ha))%nat →
      params !! i = Some p → param_annotation p = None →
      ∃ ut ty,
        r = Some ut
        ∧ inferred_types ut !! param_name p = Some ty
        ∧ param_name p ∈ is_arg ut
        ∧ match policy ha with
          | VPolicy (RangePolicy _ _ _) | VPolicy TeamThreadRange =>
              (i = 0%nat → ty = "int") ∧ (i ≠ 0%nat → ty = "Acc:float")
          | VPolicy TeamPolicy =>
              (i = 0%nat → ty = "pk.TeamMember")
              ∧ (i ≠ 0%nat → ty = "Acc:float")
          | VPolicy (MDRangePolicy begin) =>
              ((i < length begin)%nat → ty = "int")
              ∧ (¬ (i < length begin)%nat → ty = "Acc:float")
          | _ => False
          end.
Proof.
  intros Hsig Hnames Hrun. split; [apply policy_params_count|].
  intros i p Hi Hp Hann.
  destruct (get_annotations_Ok _ _ _ _ _ Hsig _ Hrun)
    as (ut0 & ut & Hpolicy & Hvalues & -> & _).
  destruct (policy_slot_recorded _ _ _ _ _ Hnames ut0 ut i p
              Hpolicy Hvalues Hi Hp Hann)
    as (ty & Hty & Harg & _ & Hkind).
  exists ut, ty. by rewrite (return_types_of_key _ _ _ Hty).
Qed.

Lemma policy_slots_inferred_witness :
  policy_params "parallel_for" (policy mdrange3_for)
  = (match policy mdrange3_for with
     | VPolicy (MDRangePolicy begin) => length begin
     | _ => 1
     end + if bool_decide ("parallel_for" = "parallel_reduce") then 1 else 0)%nat
  ∧ ∀ i p,
      (i < policy_params "parallel_for" (policy mdrange3_for))%nat →
      [unannotated "i"; unannotated "j"; unannotated "k"] !! i = Some p →
      param_annotation p = None →
      ∃ ut ty,
        Some mdrange3_types = Some ut
        ∧ inferred_types ut !! param_name p = Some ty
        ∧ param_name p ∈ is_arg ut
        ∧ match policy mdrange3_for with
          | VPolicy (RangePolicy _ _ _) | VPolicy TeamThreadRange =>
              (i = 0%nat → ty = "int") ∧ (i ≠ 0%nat → ty = "Acc:float")
          | VPolicy TeamPolicy =>
              (i = 0%nat → ty = "pk.TeamMember")
              ∧ (i ≠ 0%nat → ty = "Acc:float")
          | VPolicy (MDRangePolicy begin) =>
              ((i < length begin)%nat → ty = "int")
              ∧ (¬ (i < length begin)%nat → ty = "Acc:float")
          | _ => False
          end.
Proof.
  apply (policy_slots_inferred "parallel_for" mdrange3_for
           [policy mdrange3_for; workunit mdrange3_for] ∅).
  - reflexivity.
  - compute_done.
  - vm_compute. reflexivity.
Defined.

Example range_for_one_inferred :
  get_annotations "parallel_for" range_for_one
    [VInt 10; workunit range_for_one] ∅
  = Ok (Some {| ut_workunit := workunit range_for_one;
                inferred_types := {[ "i" := "int" ]};
                is_arg := {[ "i" ]} |}).
Proof. vm_compute. reflexivity. Qed.

Example mdrange3_for_inferred :
  get_annotations "parallel_for" mdrange3_for
    [policy mdrange3_for; workunit mdrange3_for] ∅
  = Ok (Some mdrange3_types).
Proof. vm_compute. reflexivity. Qed.

Lemma queue_kwargs_app kw params args :
  queue_kwargs kw params args
  = args ++ omap (λ p, kw !! param_name p) params.
Proof.
  unfold queue_kwargs.
  destruct (Nat.eqb_spec (size kw) 0) as [Hempty|_].
  - apply map_size_empty_iff in Hempty as ->.
    induction params as [|p params IH]; simpl; [by rewrite app_nil_r|].
    by rewrite lookup_empty.
  - revert args. induction params as [|p params IH]; intros args; simpl.
    + by rewrite app_nil_r.
    + rewrite IH. destruct (kw !! param_name p); simpl; [|done].
      by rewrite <- app_assoc.
Qed.

(** C5. Past the policy loop, on a workunit with parameters beyond the
    policy slots: the argument list is the raw one followed by the keyword
    values of those parameters, [value_idx] is 3 with a name and 2 without,
    and the call raises [AssertionError] when the number of parameters
    beyond the policy slots differs from the number of arguments beyond
    [value_idx], and returns when they are equal. *)
Theorem count_mismatch_raises_AssertionError pt ha args kw params :
  signature (workunit ha) = Ok params →
  (policy_params pt (policy ha) < length params)%nat →
  supported (policy ha)
  ∨ (∀ i p, (i < policy_params pt (policy ha))%nat → params !! i = Some p →
            is_Some (param_annotation p)) →
  let pp := policy_params pt (policy ha) in
  let args_list := queue_kwargs kw (drop pp params) args in
  args_list = args ++ omap (λ p, kw !! param_name p) (drop pp params)
  ∧ value_idx ha = match name ha with Some _ => 3 | None => 2 end
  ∧ (Z.of_nat (length params) - Z.of_nat pp
     ≠ Z.of_nat (length args_list) - value_idx ha →
     get_annotations pt ha args kw = Raise AssertionError)
  ∧ (Z.of_nat (length params) - Z.of_nat pp
     = Z.of_nat (length args_list) - value_idx ha →
     ∃ r, get_annotations pt ha args kw = Ok r).
Proof.
  intros Hsig Hmore Hpol pp args_list.
  split; [apply queue_kwargs_app|]. split; [apply value_idx_cases|].
  split.
  - intros Hcount. rewrite (get_annotations_unfold _ _ _ _ _ Hsig).
    destruct (policy_loop_total pt ha params (fresh_types ha)) as [ut0 ->];
      [fold pp; lia|done|].
    simpl. fold pp args_list.
    destruct (Nat.eqb_spec (length params) pp); [lia|].
    by destruct (Z.eqb_spec (Z.of_nat (length params) - Z.of_nat pp)
                   (Z.of_nat (length args_list) - value_idx ha)).
  - intros Hcount. apply (get_annotations_total _ _ _ _ _ Hsig); fold pp.
    + lia.
    + done.
    + intros _. exact Hcount.
Qed.

Lemma count_mismatch_raises_AssertionError_witness :
  let pp := policy_params "parallel_for" (policy range_for_missing) in
  let args_list :=
    queue_kwargs ∅ (drop pp [unannotated "i"; unannotated "x"])
      [range10; workunit range_for_missing] in
  args_list
  = [range10; workunit range_for_missing]
      ++ omap (λ p, (∅ : gmap string PyVal) !! param_name p)
           (drop pp [unannotated "i"; unannotated "x"])
  ∧ value_idx range_for_missing
    = match name range_for_missing with Some _ => 3 | None => 2 end
  ∧ (Z.of_nat (length [unannotated "i"; unannotated "x"]) - Z.of_nat pp
     ≠ Z.of_nat (length args_list) - value_idx range_for_missing →
     get_annotations "parallel_for" range_for_missing
       [range10; workunit range_for_missing] ∅ = Raise AssertionError)
  ∧ (Z.of_nat (length [unannotated "i"; unannotated "x"]) - Z.of_nat pp
     = Z.of_nat (length args_list) - value_idx range_for_missing →
     ∃ r, get_annotations "parallel_for" range_for_missing
            [range10; workunit range_for_missing] ∅ = Ok r).
Proof.
  apply (count_mismatch_raises_AssertionError "parallel_for" range_for_missing
           [range10; workunit range_for_missing] ∅
           [unannotated "i"; unannotated "x"]).
  - reflexivity.
  - vm_compute. lia.
  - left. by exists (RangePolicy "OpenMP" 0 10).
Defined.

Example range_for_missing_fails :
  get_annotations "parallel_for" range_for_missing
    [range10; workunit range_for_missing] ∅ = Raise AssertionError.
Proof. vm_compute. reflexivity. Qed.

Lemma param_type_cases value :
  (∀ w, as_View value = Some w →
        param_type value
        = "View" +:+ str_of_nat (length (view_shape w)) +:+ "D:"
            +:+ view_dtype_name w)
  ∧ (as_View value = None → param_type value = type_name value).
Proof. unfold param_type. destruct (as_View value); split; congruence. Qed.

(** C6. When the inferencer returns, every unannotated parameter past the
    policy slots, at index [i], has in the result the type descriptor of
    the argument at position [value_idx + i - policy_params] of the
    argument list (keyword values included), and is classified as an
    argument.  The descriptor of a [View] is ["View"], the length of its
    shape, ["D:"] and the name of its dtype; of any other value, the name
    of its type.  A two-dimensional [float64] view gives
    ["View2D:float64"]. *)
Theorem trailing_parameter_type pt ha args kw params r i p :
  signature (workunit ha) = Ok params →
  NoDup (param_name <$> params) →
  get_annotations pt ha args kw = Ok r →
  (policy_params pt (policy ha) ≤ i)%nat →
  params !! i = Some p → param_annotation p = None →
  let pp := policy_params pt (policy ha) in
  let args_list := queue_kwargs kw (drop pp params) args in
  ∃ ut value,
    r = Some ut
    ∧ 0 ≤ value_idx ha + Z.of_nat i - Z.of_nat pp
    ∧ args_list !! Z.to_nat (value_idx ha + Z.of_nat i - Z.of_nat pp)
      = Some value
    ∧ inferred_types ut !! param_name p = Some (param_type value)
    ∧ param_name p ∈ is_arg ut
    ∧ (∀ w, as_View value = Some w →
            param_type value
            = "View" +:+ str_of_nat (length (view_shape w)) +:+ "D:"
                +:+ view_dtype_name w)
    ∧ (as_View value = None → param_type value = type_name value)
    ∧ (∀ cls rows cols,
         param_type (VView {| view_class := cls; view_is_View := true;
                              view_shape := [rows; cols];
                              view_dtype_name := "float64" |})
         = "View2D:float64").
Proof.
  intros Hsig Hnames Hrun Hi Hp Hann pp args_list.
  destruct (get_annotations_Ok _ _ _ _ _ Hsig _ Hrun)
    as (ut0 & ut & Hpolicy & Hvalues & -> & _).
  destruct (value_slot_recorded _ _ _ _ _ Hnames ut0 ut i p
              Hvalues Hi Hp Hann)
    as (ty & Hty & Harg & value & Hvalue & ->).
  fold pp args_list in Hvalue.
  destruct (value_idx_cases ha) as [_ Hidx].
  assert (Hpos : 0 ≤ value_idx ha + Z.of_nat i - Z.of_nat pp) by lia.
  apply py_index_Ok in Hvalue; [|done].
  exists ut, value. rewrite (return_types_of_key _ _ _ Hty).
  repeat split; try done; apply param_type_cases.
Qed.

Lemma trailing_parameter_type_witness :
  let pp := policy_params "parallel_for" (policy named_for_view) in
  let args_list :=
    queue_kwargs named_for_view_kwargs
      (drop pp [annotated "i" "int"; unannotated "v"; unannotated "n"])
      named_for_view_args in
  ∃ ut value,
    Some named_for_view_types = Some ut
    ∧ 0 ≤ value_idx named_for_view + Z.of_nat 1 - Z.of_nat pp
    ∧ args_list
        !! Z.to_nat (value_idx named_for_view + Z.of_nat 1 - Z.of_nat pp)
      = Some value
    ∧ inferred_types ut !! param_name (unannotated "v")
      = Some (param_type value)
    ∧ param_name (unannotated "v") ∈ is_arg ut
    ∧ (∀ w, as_View value = Some w →
            param_type value
            = "View" +:+ str_of_nat (length (view_shape w)) +:+ "D:"
                +:+ view_dtype_name w)
    ∧ (as_View value = None → param_type value = type_name value)
    ∧ (∀ cls rows cols,
         param_type (VView {| view_class := cls; view_is_View := true;
                              view_shape := [rows; cols];
                              view_dtype_name := "float64" |})
         = "View2D:float64").
Proof.
  apply (trailing_parameter_type "parallel_for" named_for_view
           named_for_view_args named_for_view_kwargs
           [annotated "i" "int"; unannotated "v"; unannotated "n"]).
  - reflexivity.
  - compute_done.
  - vm_compute. reflexivity.
  - vm_compute. lia.
  - reflexivity.
  - reflexivity.
Defined.

Example named_for_view_inferred :
  get_annotations "parallel_for" named_for_view
    named_for_view_args named_for_view_kwargs
  = Ok (Some named_for_view_types).
Proof. vm_compute. reflexivity. Qed.

Example param_type_int : param_type (VInt 3) = "int".
Proof. reflexivity. Qed.

(** C7. With a policy that is an instance of none of the four classes, a
    workunit with an unannotated parameter in a policy slot makes the
    inferencer raise [ValueError]. *)
Theorem unsupported_policy_raises_ValueError pt ha args kw params i p :
  signature (workunit ha) = Ok params →
  ¬ supported (policy ha) →
  (i < policy_params pt (policy ha))%nat →
  params !! i = Some p → param_annotation p = None →
  get_annotations pt ha args kw = Raise ValueError.
Proof.
  intros Hsig Hpol Hi Hp Hann.
  rewrite (get_annotations_unfold _ _ _ _ _ Hsig). unfold policy_loop.
  rewrite (unsupported_policy_loop pt ha params i p Hpol Hp Hann); [done|lia].
Qed.

Lemma unsupported_policy_raises_ValueError_witness :
  get_annotations "parallel_for" vector_range_for
    [policy vector_range_for; workunit vector_range_for] ∅
  = Raise ValueError.
Proof.
  apply (unsupported_policy_raises_ValueError "parallel_for" vector_range_for
           _ _ [unannotated "i"] 0%nat (unannotated "i")).
  - reflexivity.
  - intros [q Hq]. discriminate Hq.
  - vm_compute. lia.
  - reflexivity.
  - reflexivity.
Defined.

(** C8. When the inferencer returns, its result is absent exactly when the
    mapping the two loops accumulated is empty, and otherwise it is the
    accumulated record; the mapping is empty exactly when every parameter
    of the workunit carries an annotation.  A workunit whose parameters are
    all annotated and all in policy slots does return, with an absent
    result. *)
Theorem absent_iff_nothing_inferred pt ha args kw params :
  signature (workunit ha) = Ok params →
  let pp := policy_params pt (policy ha) in
  let args_list := queue_kwargs kw (drop pp params) args in
  (∀ r, get_annotations pt ha args kw = Ok r →
        ∃ ut0 ut,
          policy_loop pt (policy ha) params (fresh_types ha) = Ok ut0
          ∧ value_loop ha pp params args_list ut0 = Ok ut
          ∧ (r = None ↔ inferred_types ut = ∅)
          ∧ (∀ ut', r = Some ut' → ut' = ut)
          ∧ (inferred_types ut = ∅
             ↔ ∀ p, p ∈ params → is_Some (param_annotation p)))
  ∧ ((∀ p, p ∈ params → is_Some (param_annotation p)) →
     length params = pp →
     get_annotations pt ha args kw = Ok None).
Proof.
  intros Hsig pp args_list.
  assert (Hret : ∀ r, get_annotations pt ha args kw = Ok r →
        ∃ ut0 ut,
          policy_loop pt (policy ha) params (fresh_types ha) = Ok ut0
          ∧ value_loop ha pp params args_list ut0 = Ok ut
          ∧ (r = None ↔ inferred_types ut = ∅)
          ∧ (∀ ut', r = Some ut' → ut' = ut)
          ∧ (inferred_types ut = ∅
             ↔ ∀ p, p ∈ params → is_Some (param_annotation p))).
  { intros r Hrun.
    destruct (get_annotations_Ok _ _ _ _ _ Hsig _ Hrun)
      as (ut0 & ut & Hpolicy & Hvalues & -> & _).
    exists ut0, ut. split; [done|]. split; [done|].
    split; [apply return_types_None|].
    split; [by intros ut' [-> _]%return_types_Some|].
    split.
    - intros Hempty p [i Hp]%list_elem_of_lookup_1.
      destruct (param_annotation p) as [a|] eqn:Hann; [eauto|].
      destruct (loops_record_every_name _ _ _ _ _ ut0 ut i p
                  Hpolicy Hvalues Hp Hann) as [ty Hty].
      rewrite Hempty in Hty. by rewrite lookup_empty in Hty.
    - intros Hall.
      destruct (loops_well_recorded _ _ _ _ _ ut0 ut Hpolicy Hvalues)
        as (_ & Hdom & Hkeys).
      apply dom_empty_iff_L. rewrite Hdom.
      apply elem_of_equiv_empty_L. intros k Hk.
      destruct (Hkeys k Hk) as (p & Hp & _ & Hann).
      destruct (Hall p Hp) as [a Ha]. congruence. }
  split; [exact Hret|].
  intros Hall Hlen.
  destruct (get_annotations_total pt ha args kw params Hsig) as [r Hr].
  - fold pp. lia.
  - right. intros i p _ Hp. apply Hall. by eapply list_elem_of_lookup_2.
  - fold pp. lia.
  - destruct (Hret r Hr) as (ut0 & ut & _ & _ & Hnone & _ & Hempty).
    rewrite Hr. f_equal. apply Hnone, Hempty, Hall.
Qed.

Lemma absent_iff_nothing_inferred_witness :
  let pp := policy_params "parallel_for" (policy range_for_annotated) in
  let args_list :=
    queue_kwargs ∅ (drop pp [annotated "i" "int"])
      [range10; workunit range_for_annotated] in
  (∀ r, get_annotations "parallel_for" range_for_annotated
          [range10; workunit range_for_annotated] ∅ = Ok r →
        ∃ ut0 ut,
          policy_loop "parallel_for" (policy range_for_annotated)
            [annotated "i" "int"] (fresh_types range_for_annotated) = Ok ut0
          ∧ value_loop range_for_annotated pp [annotated "i" "int"]
              args_list ut0 = Ok ut
          ∧ (r = None ↔ inferred_types ut = ∅)
          ∧ (∀ ut', r = Some ut' → ut' = ut)
          ∧ (inferred_types ut = ∅
             ↔ ∀ p, p ∈ [annotated "i" "int"] →
                    is_Some (param_annotation p)))
  ∧ ((∀ p, p ∈ [annotated "i" "int"] → is_Some (param_annotation p)) →
     length [annotated "i" "int"] = pp →
     get_annotations "parallel_for" range_for_annotated
       [range10; workunit range_for_annotated] ∅ = Ok None).
Proof.
  apply (absent_iff_nothing_inferred "parallel_for" range_for_annotated
           [range10; workunit range_for_annotated] ∅ [annotated "i" "int"]).
  reflexivity.
Defined.

Example range_for_annotated_absent :
  get_annotations "parallel_for" range_for_annotated
    [range10; workunit range_for_annotated] ∅ = Ok None.
Proof. vm_compute. reflexivity. Qed.

(** C9. In every result the inferencer returns, the names classified as
    arguments are exactly the keys of the inferred-type mapping, and each
    of them is the name of an unannotated parameter of the workunit. *)
Theorem is_arg_is_inferred_keys pt ha args kw params ut :
  signature (workunit ha) = Ok params →
  get_annotations pt ha args kw = Ok (Some ut) →
  dom (inferred_types ut) = is_arg ut
  ∧ ∀ k, k ∈ is_arg ut →
         ∃ p, p ∈ params ∧ param_name p = k ∧ param_annotation p = None.
Proof.
  intros Hsig Hrun.
  destruct (get_annotations_Ok _ _ _ _ _ Hsig _ Hrun)
    as (ut0 & ut1 & Hpolicy & Hvalues & Hret & _).
  symmetry in Hret. apply return_types_Some in Hret as [-> _].
  by destruct (loops_well_recorded _ _ _ _ _ ut0 ut1 Hpolicy Hvalues)
    as (_ & Hdom & Hkeys).
Qed.

Lemma is_arg_is_inferred_keys_witness :
  dom (inferred_types named_for_view_types) = is_arg named_for_view_types
  ∧ ∀ k, k ∈ is_arg named_for_view_types →
         ∃ p, p ∈ [annotated "i" "int"; unannotated "v"; unannotated "n"]
              ∧ param_name p = k ∧ param_annotation p = None.
Proof.
  apply (is_arg_is_inferred_keys "parallel_for" named_for_view
           named_for_view_args named_for_view_kwargs).
  - reflexivity.
  - vm_compute. reflexivity.
Defined.

(** C10. A parameter that carries an annotation has no inferred type and
    is not classified as an argument in any result, and the result holds
    the workunit as it was passed, annotations included.  This covers an
    annotated accumulator of a [parallel_reduce], which is not given
    ["Acc:float"].  Parameter names are distinct, as in every Python
    signature. *)
Theorem annotated_parameter_never_inferred pt ha args kw params ut p a :
  signature (workunit ha) = Ok params →
  NoDup (param_name <$> params) →
  get_annotations pt ha args kw = Ok (Some ut) →
  p ∈ params → param_annotation p = Some a →
  inferred_types ut !! param_name p = None
  ∧ (param_name p ∉ is_arg ut)
  ∧ ut_workunit ut = workunit ha.
Proof.
  intros Hsig Hnames Hrun Hp Hann.
  destruct (get_annotations_Ok _ _ _ _ _ Hsig _ Hrun)
    as (ut0 & ut1 & Hpolicy & Hvalues & Hret & _).
  symmetry in Hret. apply return_types_Some in Hret as [-> _].
  destruct (loops_well_recorded _ _ _ _ _ ut0 ut1 Hpolicy Hvalues)
    as (Hw & Hdom & Hkeys).
  assert (Hnot : param_name p ∉ is_arg ut1).
  { intros (q & Hq & Hname & Hq_ann)%Hkeys.
    apply list_elem_of_lookup_1 in Hp as [i Hi].
    apply list_elem_of_lookup_1 in Hq as [j Hj].
    destruct (decide (i = j)) as [->|Hij]; [congruence|].
    by destruct (distinct_names _ Hnames _ _ _ _ Hj Hi (not_eq_sym Hij)). }
  split; [|done].
  apply not_elem_of_dom. by rewrite Hdom.
Qed.

Lemma annotated_parameter_never_inferred_witness :
  inferred_types range_reduce_annotated_types
    !! param_name (annotated "acc" "pk.Acc[float]") = None
  ∧ (param_name (annotated "acc" "pk.Acc[float]")
     ∉ is_arg range_reduce_annotated_types)
  ∧ ut_workunit range_reduce_annotated_types
    = workunit range_reduce_annotated.
Proof.
  apply (annotated_parameter_never_inferred "parallel_reduce"
           range_reduce_annotated
           [range10; workunit range_reduce_annotated] ∅
           [unannotated "i"; annotated "acc" "pk.Acc[float]"]
           _ (annotated "acc" "pk.Acc[float]") "pk.Acc[float]").
  - reflexivity.
  - compute_done.
  - vm_compute. reflexivity.
  - apply list_elem_of_further, list_elem_of_here.
  - reflexivity.
Defined.

(** * Further properties of the unpacker *)

Lemma handle_args_Ok_spec ds is_for args ha :
  handle_args ds is_for args = Ok ha →
  handle_args_spec ds is_for args (Ok ha).
Proof. intros <-. apply handle_args_sound. Qed.

Lemma wrap_policy_not_int ds p : as_int (wrap_policy ds p) = None.
Proof. unfold wrap_policy. by destruct p. Qed.

Lemma numeric_not_ViewType v : is_numeric v = true → is_ViewType v = false.
Proof. by destruct v. Qed.

(** The policy of a record the unpacker returns is never an instance of
    [int]: lines 89-90 have replaced it. *)
Theorem handle_args_policy_not_int ds is_for args ha :
  handle_args ds is_for args = Ok ha → as_int (policy ha) = None.
Proof.
  intros H%handle_args_Ok_spec.
  inversion H; subst; simpl; apply wrap_policy_not_int.
Qed.

Lemma handle_args_policy_not_int_witness : as_int (policy range_for_one) = None.
Proof.
  apply (handle_args_policy_not_int "OpenMP" true
           [VInt 10; workunit range_for_one]).
  reflexivity.
Defined.

(** A record holds a view only in for-mode; the view is then the last
    element of the tuple, an instance of [ViewType], and the initial value
    is still the default 0. *)
Theorem handle_args_view ds is_for args ha v :
  handle_args ds is_for args = Ok ha → view ha = Some v →
  is_for = true ∧ is_ViewType v = true ∧ last args = Some v
  ∧ initial_value ha = VInt 0.
Proof.
  intros H%handle_args_Ok_spec Hv.
  inversion H; subst; simpl in *; try discriminate;
    injection Hv as ->; done.
Qed.

Lemma handle_args_view_witness :
  true = true ∧ is_ViewType view2d = true
  ∧ last [range10; VCallable []; view2d] = Some view2d
  ∧ initial_value {| name := None; policy := range10;
                     workunit := VCallable []; view := Some view2d;
                     initial_value := VInt 0 |} = VInt 0.
Proof.
  apply (handle_args_view "OpenMP" true [range10; VCallable []; view2d]
           {| name := None; policy := range10; workunit := VCallable [];
              view := Some view2d; initial_value := VInt 0 |}).
  - reflexivity.
  - reflexivity.
Defined.

(** The initial value of a record is always an [int] or a [float]; when it
    is not the default 0 it is the last element of the tuple and the record
    holds no view. *)
Theorem handle_args_initial_value ds is_for args ha :
  handle_args ds is_for args = Ok ha →
  is_numeric (initial_value ha) = true
  ∧ (initial_value ha ≠ VInt 0 →
     view ha = None ∧ last args = Some (initial_value ha)).
Proof.
  intros H%handle_args_Ok_spec.
  inversion H; subst; simpl; split; done.
Qed.

Lemma handle_args_initial_value_witness :
  is_numeric (initial_value {| name := Some "sum"; policy := range10;
                               workunit := VCallable []; view := None;
                               initial_value := VFloat 7 |}) = true
  ∧ (initial_value {| name := Some "sum"; policy := range10;
                      workunit := VCallable []; view := None;
                      initial_value := VFloat 7 |} ≠ VInt 0 →
     view {| name := Some "sum"; policy := range10;
             workunit := VCallable []; view := None;
             initial_value := VFloat 7 |} = None
     ∧ last [VStr "sum"; VInt 10; VCallable []; VFloat 7]
       = Some (initial_value {| name := Some "sum"; policy := range10;
                                workunit := VCallable []; view := None;
                                initial_value := VFloat 7 |})).
Proof.
  apply (handle_args_initial_value "OpenMP" false
           [VStr "sum"; VInt 10; VCallable []; VFloat 7]).
  reflexivity.
Defined.

(** A record has a name exactly when the tuple has at least three elements
    and its first one is a string; the name is that string.  A string
    leading a two-element tuple is taken as the policy. *)
Theorem handle_args_name ds is_for args ha s :
  handle_args ds is_for args = Ok ha →
  name ha = Some s ↔ (3 ≤ length args)%nat ∧ args !! 0%nat = Some (VStr s).
Proof.
  intros H%handle_args_Ok_spec.
  inversion H; subst; simpl; split;
    try (intros [= ->]; split; [lia|done]);
    try (intros [_ [= ->]]; done);
    try (intros [? _]; lia); try done;
    try (intros [_ [= ->]]; simpl in *; discriminate).
Qed.

Lemma handle_args_name_witness :
  name {| name := Some "sum"; policy := range10;
          workunit := VCallable []; view := None;
          initial_value := VFloat 7 |} = Some "sum"
  ↔ (3 ≤ length [VStr "sum"; VInt 10; VCallable []; VFloat 7])%nat
    ∧ [VStr "sum"; VInt 10; VCallable []; VFloat 7] !! 0%nat
      = Some (VStr "sum").
Proof.
  apply (handle_args_name "OpenMP" false
           [VStr "sum"; VInt 10; VCallable []; VFloat 7]).
  reflexivity.
Defined.

(** The unpacker raises [ValueError] exactly on a tuple of fewer than two
    or more than four elements; it raises nothing but [ValueError] and
    [TypeError], and [TypeError] only on three or four elements, so that a
    pair is never rejected. *)
Theorem handle_args_errors ds is_for args :
  (handle_args ds is_for args = Raise ValueError
   ↔ (length args < 2 ∨ 4 < length args)%nat)
  ∧ (∀ e, handle_args ds is_for args = Raise e →
          e = ValueError
          ∨ e = TypeError ∧ (length args = 3 ∨ length args = 4)%nat).
Proof.
  pose proof (handle_args_sound ds is_for args) as H.
  split; [split|].
  - intros Hr. rewrite Hr in H. inversion H; subst. lia.
  - intros Hlen.
    destruct args as [|u0 [|u1 [|u2 [|u3 [|u4 rest]]]]];
      simpl in Hlen; try lia; reflexivity.
  - intros e Hr. rewrite Hr in H. inversion H; subst; auto.
Qed.

(** A tuple that unpacks outside for-mode unpacks to the same record in
    for-mode: for-mode only adds the reading of a trailing view. *)
Theorem handle_args_for_mode_extends ds args ha :
  handle_args ds false args = Ok ha → handle_args ds true args = Ok ha.
Proof.
  intros H%handle_args_Ok_spec. apply handle_args_spec_complete.
  inversion H; subst; try discriminate.
  - apply spec_policy_workunit.
  - apply spec_name_policy_workunit.
  - apply spec_policy_workunit_initial; [done| |done].
    by rewrite numeric_not_ViewType.
  - apply spec_name_policy_workunit_initial; [|done].
    by rewrite numeric_not_ViewType.
Qed.

Lemma handle_args_for_mode_extends_witness :
  handle_args "OpenMP" true [VInt 10; VCallable []; VInt 5]
  = Ok {| name := None; policy := range10; workunit := VCallable [];
          view := None; initial_value := VInt 5 |}.
Proof.
  apply (handle_args_for_mode_extends "OpenMP"
           [VInt 10; VCallable []; VInt 5]).
  reflexivity.
Defined.


(** * Further properties of the inferencer *)

(** ** Which exception, and when *)

Lemma for_each_app {X S : Type} (body : X → S → result S) (xs ys : list X) s :
  for_each body (xs ++ ys) s = (s' ← for_each body xs s; for_each body ys s').
Proof.
  revert s. induction xs as [|x xs IH]; intros s; simpl; [done|].
  destruct (body x s); simpl; [apply IH|done].
Qed.

Lemma for_each_Raise {X S : Type} (body : X → S → result S) (xs : list X) s e :
  for_each body xs s = Raise e → ∃ x s0, x ∈ xs ∧ body x s0 = Raise e.
Proof.
  revert s. induction xs as [|x xs IH]; intros s; simpl; [done|].
  destruct (body x s) as [s1|e1] eqn:Hx; simpl.
  - intros (y & s0 & Hy & Hbody)%IH. exists y, s0. split; [by right|done].
  - intros [= ->]. exists x, s. split; [left|done].
Qed.

Lemma for_each_ext {X S : Type} (body body' : X → S → result S) (xs : list X) :
  (∀ x s, x ∈ xs → body x s = body' x s) →
  ∀ s, for_each body xs s = for_each body' xs s.
Proof.
  induction xs as [|x xs IH]; intros Hbody s; simpl; [done|].
  rewrite <- Hbody by left. destruct (body x s); simpl; [|done].
  apply IH. intros y t Hy. apply Hbody. by right.
Qed.

Lemma supported_dec pol : supported pol ∨ ¬ supported pol.
Proof.
  destruct pol as [| | | | | |q| |];
    try (right; intros [q' Hq']; discriminate).
  left. by exists q.
Qed.

Lemma policy_body_Raise pt pol params i ut e :
  policy_body pt pol params i ut = Raise e →
  e = IndexError ∧ params !! i = None
  ∨ e = ValueError ∧ ¬ supported pol
    ∧ ∃ p, params !! i = Some p ∧ param_annotation p = None.
Proof.
  unfold policy_body. rewrite py_index_nat.
  destruct (params !! i) as [p|] eqn:Hp; simpl; [|intros [= <-]; by left].
  destruct (param_annotation p) eqn:Hann; [done|].
  destruct pol as [| | | | | |[]| |]; simpl; try done;
    intros [= <-]; right; (split; [done|]);
    (split; [intros [q Hq]; discriminate|by exists p]).
Qed.

Lemma policy_body_out_of_range pt pol params i ut :
  params !! i = None → policy_body pt pol params i ut = Raise IndexError.
Proof. intros Hi. unfold policy_body. by rewrite py_index_nat, Hi. Qed.

Lemma value_body_Raise ha pp params args_list i ut e :
  value_body ha pp params args_list i ut = Raise e → e = IndexError.
Proof.
  unfold value_body, py_index.
  repeat (case_match; simpl; try done); by intros [= <-].
Qed.

Section Outcome.

Variable parallel_type : string.
Variable handled_args : HandledArgs.
Variable args : list PyVal.
Variable passed_kwargs : gmap string PyVal.
Variable param_list : list Param.

Hypothesis Hsignature : signature (workunit handled_args) = Ok param_list.

Local Abbreviation pol := (policy handled_args).
Local Abbreviation pp := (policy_params parallel_type (policy handled_args)).
Local Abbreviation args_list :=
  (queue_kwargs passed_kwargs (drop pp param_list) args).
Local Abbreviation run_policy_loop :=
  (policy_loop parallel_type pol param_list).
(** The policy loop meets no unannotated parameter it cannot type. *)
Local Abbreviation slots_typable :=
  (supported pol
   ∨ ∀ i p, (i < pp)%nat → param_list !! i = Some p →
            is_Some (param_annotation p)).

Lemma policy_loop_Raise_ValueError ut :
  run_policy_loop ut = Raise ValueError
  ↔ ¬ supported pol
    ∧ ∃ i p, (i < pp)%nat ∧ param_list !! i = Some p
             ∧ param_annotation p = None.
Proof.
  split.
  - intros (i & s0 & Hi & Hbody)%for_each_Raise.
    apply elem_of_seq in Hi.
    apply policy_body_Raise in Hbody
      as [[? _]|(_ & Hpol & p & Hp & Hann)]; [done|].
    split; [done|]. exists i, p. split; [lia|done].
  - intros (Hpol & i & p & Hi & Hp & Hann).
    apply (unsupported_policy_loop _ _ _ i p Hpol Hp Hann). lia.
Qed.

Lemma policy_loop_not_ValueError ut :
  run_policy_loop ut ≠ Raise ValueError → slots_typable.
Proof.
  intros Hrun. destruct (supported_dec pol) as [Hpol|Hpol]; [by left|].
  right. intros i p Hi Hp.
  destruct (param_annotation p) as [a|] eqn:Hann; [eauto|].
  destruct Hrun. apply policy_loop_Raise_ValueError.
  split; [done|]. by exists i, p.
Qed.

Lemma policy_loop_short ut :
  (length param_list < pp)%nat → slots_typable →
  run_policy_loop ut = Raise IndexError.
Proof.
  intros Hshort Hpol. unfold policy_loop.
  replace pp with (length param_list + (pp - length param_list))%nat by lia.
  rewrite seq_app, for_each_app.
  destruct (for_each_total
              (policy_body parallel_type pol param_list)
              (seq 0 (length param_list))) with (s := ut) as [ut' ->].
  { intros i s [_ Hi]%elem_of_seq.
    destruct (lookup_lt_is_Some_2 param_list i) as [p Hp]; [lia|].
    unfold policy_body. rewrite py_index_nat, Hp. simpl.
    destruct (param_annotation p) as [a|] eqn:Hann; [eauto|].
    destruct Hpol as [[q Hq]|Hall].
    - rewrite Hq. destruct q; simpl; eauto.
    - destruct (Hall i p) as [a Ha]; [lia|done|congruence]. }
  simpl. destruct (pp - length param_list)%nat as [|n] eqn:Hn; [lia|].
  cbn [seq for_each].
  by rewrite policy_body_out_of_range by (apply lookup_ge_None_2; lia).
Qed.

Lemma policy_loop_Raise_IndexError ut :
  run_policy_loop ut = Raise IndexError
  ↔ (length param_list < pp)%nat ∧ slots_typable.
Proof.
  split.
  - intros Hrun. split.
    + apply for_each_Raise in Hrun as (i & s0 & Hi & Hbody).
      apply elem_of_seq in Hi.
      apply policy_body_Raise in Hbody as [[_ Hnone]|[? _]]; [|done].
      apply lookup_ge_None in Hnone. lia.
    + apply (policy_loop_not_ValueError ut). by rewrite Hrun.
  - intros [Hshort Hpol]. by apply policy_loop_short.
Qed.

Lemma policy_loop_Ok ut :
  (∃ ut', run_policy_loop ut = Ok ut')
  ↔ (pp ≤ length param_list)%nat ∧ slots_typable.
Proof.
  split.
  - intros [ut' Hrun]. split; [by eapply policy_loop_in_range|].
    apply (policy_loop_not_ValueError ut). by rewrite Hrun.
  - intros [Hle Hpol]. by apply policy_loop_total.
Qed.

Lemma policy_loop_Raise ut e :
  run_policy_loop ut = Raise e → e = IndexError ∨ e = ValueError.
Proof.
  intros (i & s0 & _ & Hbody)%for_each_Raise.
  apply policy_body_Raise in Hbody as [[-> _]|[-> _]]; auto.
Qed.

End Outcome.

Lemma typable_or_not pt pol (params : list Param) :
  (supported pol
   ∨ ∀ i p, (i < policy_params pt pol)%nat → params !! i = Some p →
            is_Some (param_annotation p)) →
  ¬ supported pol →
  (∃ i p, (i < policy_params pt pol)%nat ∧ params !! i = Some p
          ∧ param_annotation p = None) →
  False.
Proof.
  intros [Hsup|Hall] Hpol (i & p & Hi & Hp & Hann); [done|].
  destruct (Hall i p Hi Hp) as [a Ha]. congruence.
Qed.

(** Every call on a callable workunit ends in exactly one of four ways,
    each with its condition. *)
Lemma get_annotations_outcome pt ha args kw params :
  signature (workunit ha) = Ok params →
  let pp := policy_params pt (policy ha) in
  let args_list := queue_kwargs kw (drop pp params) args in
  let typable :=
    supported (policy ha)
    ∨ ∀ i p, (i < pp)%nat → params !! i = Some p →
             is_Some (param_annotation p) in
  let counts_match :=
    Z.of_nat (length params) - Z.of_nat pp
    = Z.of_nat (length args_list) - value_idx ha in
  (¬ supported (policy ha)
   ∧ (∃ i p, (i < pp)%nat ∧ params !! i = Some p
             ∧ param_annotation p = None)
   ∧ get_annotations pt ha args kw = Raise ValueError)
  ∨ (typable ∧ (length params < pp)%nat
     ∧ get_annotations pt ha args kw = Raise IndexError)
  ∨ (typable ∧ (pp < length params)%nat ∧ ¬ counts_match
     ∧ get_annotations pt ha args kw = Raise AssertionError)
  ∨ (typable ∧ (pp ≤ length params)%nat
     ∧ ((pp < length params)%nat → counts_match)
     ∧ ∃ r, get_annotations pt ha args kw = Ok r).
Proof.
  intros Hsig pp args_list typable counts_match.
  rewrite (get_annotations_unfold _ _ _ _ _ Hsig). fold pp args_list.
  destruct (policy_loop pt (policy ha) params (fresh_types ha))
    as [ut0|e] eqn:Hloop; simpl.
  - destruct (proj1 (policy_loop_Ok pt ha params (fresh_types ha)))
      as [Hle Hpol]; [eauto|].
    fold pp in Hle. right. right.
    destruct (Nat.eqb_spec (length params) pp) as [Heq|Hne].
    { right. repeat split; [done|lia|lia|eauto]. }
    destruct (Z.eqb_spec (Z.of_nat (length params) - Z.of_nat pp)
                (Z.of_nat (length args_list) - value_idx ha)) as [Hc|Hc].
    + right.
      destruct (value_loop_total pt ha args kw params ut0 Hle Hc) as [ut Hut].
      fold pp args_list in Hut. rewrite Hut. simpl.
      repeat split; [done|lia|done|eauto].
    + left. repeat split; [done|lia|done].
  - destruct (policy_loop_Raise _ _ _ _ _ Hloop) as [-> | ->].
    + apply policy_loop_Raise_IndexError in Hloop as [Hshort Hpol].
      right. left. by repeat split.
    + apply policy_loop_Raise_ValueError in Hloop as [Hpol Hex].
      left. by repeat split.
Qed.



(** The call raises [IndexError] exactly when the workunit has fewer
    parameters than policy slots and the policy loop meets no unannotated
    parameter it cannot type.  Indexing the argument list never raises
    it. *)
Theorem get_annotations_IndexError pt ha args kw params :
  signature (workunit ha) = Ok params →
  get_annotations pt ha args kw = Raise IndexError
  ↔ (length params < policy_params pt (policy ha))%nat
    ∧ (supported (policy ha)
       ∨ ∀ i p, (i < policy_params pt (policy ha))%nat →
                params !! i = Some p → is_Some (param_annotation p)).
Proof.
  intros Hsig.
  destruct (get_annotations_outcome pt ha args kw params Hsig)
    as [(Hn & Hex & Hr)|[(Hp & Hlen & Hr)|[(Hp & Hlen & Hc & Hr)
       |(Hp & Hlen & Hc & r & Hr)]]]; rewrite Hr; split; try done.
  - intros [_ Hp]. destruct (typable_or_not _ _ _ Hp Hn Hex).
  - intros [? _]. lia.
  - intros [? _]. lia.
Qed.

(** [parallel_reduce(10, work)] with [def work(i)]: no accumulator. *)
Lemma get_annotations_IndexError_witness :
  get_annotations "parallel_reduce" range_for_one
    [range10; workunit range_for_one] ∅ = Raise IndexError
  ↔ (length [unannotated "i"]
     < policy_params "parallel_reduce" (policy range_for_one))%nat
    ∧ (supported (policy range_for_one)
       ∨ ∀ i p, (i < policy_params "parallel_reduce" (policy range_for_one))%nat →
                [unannotated "i"] !! i = Some p →
                is_Some (param_annotation p)).
Proof.
  apply (get_annotations_IndexError "parallel_reduce" range_for_one).
  reflexivity.
Defined.

Example reduce_without_accumulator :
  get_annotations "parallel_reduce" range_for_one
    [range10; workunit range_for_one] ∅ = Raise IndexError.
Proof. vm_compute. reflexivity. Qed.

(** The call raises [AssertionError] exactly when the policy loop completes,
    the workunit has parameters past the policy slots, and their number
    differs from the number of arguments past [value_idx]. *)
Theorem get_annotations_AssertionError pt ha args kw params :
  signature (workunit ha) = Ok params →
  let pp := policy_params pt (policy ha) in
  let args_list := queue_kwargs kw (drop pp params) args in
  get_annotations pt ha args kw = Raise AssertionError
  ↔ (pp < length params)%nat
    ∧ (supported (policy ha)
       ∨ ∀ i p, (i < pp)%nat → params !! i = Some p →
                is_Some (param_annotation p))
    ∧ Z.of_nat (length params) - Z.of_nat pp
      ≠ Z.of_nat (length args_list) - value_idx ha.
Proof.
  intros Hsig pp args_list.
  destruct (get_annotations_outcome pt ha args kw params Hsig)
    as [(Hn & Hex & Hr)|[(Hp & Hlen & Hr)|[(Hp & Hlen & Hc & Hr)
       |(Hp & Hlen & Hc & r & Hr)]]]; rewrite Hr; split; try done.
  - intros (_ & Hp & _). destruct (typable_or_not _ _ _ Hp Hn Hex).
  - intros (? & _). fold pp in Hlen. lia.
  - intros (Hmore & _ & Hdiff). destruct Hdiff. by apply Hc.
Qed.

Lemma get_annotations_AssertionError_witness :
  let pp := policy_params "parallel_for" (policy range_for_missing) in
  let args_list :=
    queue_kwargs ∅ (drop pp [unannotated "i"; unannotated "x"])
      [range10; workunit range_for_missing] in
  get_annotations "parallel_for" range_for_missing
    [range10; workunit range_for_missing] ∅ = Raise AssertionError
  ↔ (pp < length [unannotated "i"; unannotated "x"])%nat
    ∧ (supported (policy range_for_missing)
       ∨ ∀ i p, (i < pp)%nat →
                [unannotated "i"; unannotated "x"] !! i = Some p →
                is_Some (param_annotation p))
    ∧ Z.of_nat (length [unannotated "i"; unannotated "x"]) - Z.of_nat pp
      ≠ Z.of_nat (length args_list) - value_idx range_for_missing.
Proof.
  apply (get_annotations_AssertionError "parallel_for" range_for_missing).
  reflexivity.
Defined.

(** The call returns exactly when the workunit has a parameter for every
    policy slot, the policy loop meets no unannotated parameter it cannot
    type, and, if parameters remain past the policy slots, there are as
    many arguments past [value_idx]. *)
Theorem get_annotations_returns pt ha args kw params :
  signature (workunit ha) = Ok params →
  let pp := policy_params pt (policy ha) in
  let args_list := queue_kwargs kw (drop pp params) args in
  (∃ r, get_annotations pt ha args kw = Ok r)
  ↔ (pp ≤ length params)%nat
    ∧ (supported (policy ha)
       ∨ ∀ i p, (i < pp)%nat → params !! i = Some p →
                is_Some (param_annotation p))
    ∧ ((pp < length params)%nat →
       Z.of_nat (length params) - Z.of_nat pp
       = Z.of_nat (length args_list) - value_idx ha).
Proof.
  intros Hsig pp args_list.
  destruct (get_annotations_outcome pt ha args kw params Hsig)
    as [(Hn & Hex & Hr)|[(Hp & Hlen & Hr)|[(Hp & Hlen & Hc & Hr)
       |(Hp & Hlen & Hc & r & Hr)]]]; rewrite Hr; split;
    try (intros [? [=]]); eauto.
  - intros (_ & Hp & _). destruct (typable_or_not _ _ _ Hp Hn Hex).
  - intros (? & _). fold pp in Hlen. lia.
  - intros (Hle & _ & Hcount). destruct Hc. apply Hcount. done.
Qed.

Lemma get_annotations_returns_witness :
  let pp := policy_params "parallel_for" (policy named_for_view) in
  let args_list :=
    queue_kwargs named_for_view_kwargs
      (drop pp [annotated "i" "int"; unannotated "v"; unannotated "n"])
      named_for_view_args in
  (∃ r, get_annotations "parallel_for" named_for_view
          named_for_view_args named_for_view_kwargs = Ok r)
  ↔ (pp ≤ length [annotated "i" "int"; unannotated "v"; unannotated "n"])%nat
    ∧ (supported (policy named_for_view)
       ∨ ∀ i p, (i < pp)%nat →
                [annotated "i" "int"; unannotated "v"; unannotated "n"] !! i
                = Some p → is_Some (param_annotation p))
    ∧ ((pp < length [annotated "i" "int"; unannotated "v"; unannotated "n"])%nat →
       Z.of_nat (length [annotated "i" "int"; unannotated "v"; unannotated "n"])
         - Z.of_nat pp
       = Z.of_nat (length args_list) - value_idx named_for_view).
Proof.
  apply (get_annotations_returns "parallel_for" named_for_view).
  reflexivity.
Defined.

(** The call raises [TypeError] exactly when the workunit is not
    callable: neither loop raises it. *)
Theorem get_annotations_TypeError pt ha args kw :
  get_annotations pt ha args kw = Raise TypeError
  ↔ signature (workunit ha) = Raise TypeError.
Proof.
  destruct (signature (workunit ha)) as [params|e] eqn:Hsig.
  - destruct (get_annotations_outcome pt ha args kw params Hsig)
      as [(Hn & Hex & Hr)|[(Hp & Hlen & Hr)|[(Hp & Hlen & Hc & Hr)
         |(Hp & Hlen & Hc & r & Hr)]]]; rewrite Hr; split; done.
  - unfold get_annotations. rewrite Hsig. simpl.
    destruct (workunit ha); simpl in Hsig; by inversion Hsig.
Qed.

(** ** Keyword arguments, dispatch kinds and the result's keys *)

Lemma omap_agree {A B : Type} (f g : A → option B) (l : list A) :
  (∀ x, x ∈ l → f x = g x) → omap f l = omap g l.
Proof.
  intros Hfg. apply list_omap_ext.
  induction l as [|x l IH]; constructor.
  - apply Hfg. left.
  - apply IH. intros y Hy. apply Hfg. by right.
Qed.

(** Only the keyword arguments named after a parameter past the policy
    slots are read: two keyword mappings that agree on those names give the
    same outcome, so that an unknown keyword, or one naming a policy-slot
    parameter, is ignored without an error. *)
Theorem kwargs_read_by_trailing_name pt ha args kw kw' params :
  signature (workunit ha) = Ok params →
  (∀ p, p ∈ drop (policy_params pt (policy ha)) params →
        kw !! param_name p = kw' !! param_name p) →
  get_annotations pt ha args kw = get_annotations pt ha args kw'.
Proof.
  intros Hsig Hagree.
  rewrite !(get_annotations_unfold _ _ _ _ _ Hsig), !queue_kwargs_app.
  by rewrite (omap_agree _ (λ p, kw' !! param_name p) _ Hagree).
Qed.

Lemma kwargs_read_by_trailing_name_witness :
  get_annotations "parallel_for" named_for_view named_for_view_args
    named_for_view_kwargs
  = get_annotations "parallel_for" named_for_view named_for_view_args
      (<["i" := VInt 0]> (<["chunk" := VNone]> named_for_view_kwargs)).
Proof.
  apply (kwargs_read_by_trailing_name "parallel_for" named_for_view
           named_for_view_args named_for_view_kwargs _
           [annotated "i" "int"; unannotated "v"; unannotated "n"]).
  - reflexivity.
  - intros p Hp. change (p ∈ [unannotated "v"; unannotated "n"]) in Hp.
    apply elem_of_cons in Hp as [->|Hp]; [vm_compute; reflexivity|].
    apply elem_of_cons in Hp as [->|Hp]; [vm_compute; reflexivity|].
    by apply elem_of_nil in Hp.
Defined.

Lemma policy_params_not_reduce pt pol :
  pt ≠ "parallel_reduce" →
  policy_params pt pol = policy_params "parallel_for" pol.
Proof.
  intros Hpt%String.eqb_neq. unfold policy_params. by rewrite Hpt.
Qed.

(** The dispatch kind is only ever compared with ["parallel_reduce"]: any
    other kind is handled as ["parallel_for"], with no accumulator
    slot. *)
Theorem only_reduce_has_accumulator pt ha args kw :
  pt ≠ "parallel_reduce" →
  get_annotations pt ha args kw = get_annotations "parallel_for" ha args kw.
Proof.
  intros Hpt. unfold get_annotations.
  destruct (signature (workunit ha)) as [params|]; simpl; [|done].
  rewrite (policy_params_not_reduce pt _ Hpt).
  replace (policy_loop pt (policy ha) params (fresh_types ha))
    with (policy_loop "parallel_for" (policy ha) params (fresh_types ha));
    [done|].
  unfold policy_loop. rewrite (policy_params_not_reduce pt _ Hpt).
  apply for_each_ext. intros i ut _. unfold policy_body.
  rewrite (policy_params_not_reduce pt _ Hpt).
  apply String.eqb_neq in Hpt. rewrite Hpt.
  by replace (String.eqb "parallel_for" "parallel_reduce") with false.
Qed.

Lemma only_reduce_has_accumulator_witness :
  get_annotations "parallel_scan" range_reduce
    [range10; workunit range_reduce] ∅
  = get_annotations "parallel_for" range_reduce
      [range10; workunit range_reduce] ∅.
Proof.
  apply (only_reduce_has_accumulator "parallel_scan" range_reduce).
  discriminate.
Defined.

Lemma keys_iff_unannotated pt ha args kw params ut k :
  signature (workunit ha) = Ok params →
  get_annotations pt ha args kw = Ok (Some ut) →
  is_Some (inferred_types ut !! k)
  ↔ ∃ p, p ∈ params ∧ param_name p = k ∧ param_annotation p = None.
Proof.
  intros Hsig Hrun.
  destruct (get_annotations_Ok _ _ _ _ _ Hsig _ Hrun)
    as (ut0 & ut1 & Hpolicy & Hvalues & Hret & _).
  symmetry in Hret. apply return_types_Some in Hret as [-> _].
  split.
  - intros Hk%elem_of_dom.
    destruct (loops_well_recorded _ _ _ _ _ ut0 ut1 Hpolicy Hvalues)
      as (_ & Hdom & Hkeys).
    rewrite Hdom in Hk. by apply Hkeys.
  - intros (p & [i Hp]%list_elem_of_lookup_1 & <- & Hann).
    by eapply loops_record_every_name.
Qed.

(** The keys of a returned mapping are exactly the names of the workunit's
    unannotated parameters, policy slots and trailing ones alike. *)
Theorem inferred_keys_are_unannotated pt ha args kw params ut k :
  signature (workunit ha) = Ok params →
  get_annotations pt ha args kw = Ok (Some ut) →
  is_Some (inferred_types ut !! k)
  ↔ ∃ p, p ∈ params ∧ param_name p = k ∧ param_annotation p = None.
Proof. apply keys_iff_unannotated. Qed.

Lemma inferred_keys_are_unannotated_witness :
  is_Some (inferred_types named_for_view_types !! "v")
  ↔ ∃ p, p ∈ [annotated "i" "int"; unannotated "v"; unannotated "n"]
         ∧ param_name p = "v" ∧ param_annotation p = None.
Proof.
  apply (inferred_keys_are_unannotated "parallel_for" named_for_view
           named_for_view_args named_for_view_kwargs).
  - reflexivity.
  - vm_compute. reflexivity.
Defined.

(** With distinct parameter names, a returned mapping has one entry for
    each unannotated parameter of the workunit. *)
Theorem inferred_size pt ha args kw params ut :
  signature (workunit ha) = Ok params →
  NoDup (param_name <$> params) →
  get_annotations pt ha args kw = Ok (Some ut) →
  size (inferred_types ut)
  = length (filter (λ p, param_annotation p = None) params).
Proof.
  intros Hsig Hnames Hrun.
  set (free := filter (λ p, param_annotation p = None) params).
  assert (Hdom : dom (inferred_types ut)
                 = list_to_set (param_name <$> free)).
  { apply set_eq. intros k.
    rewrite elem_of_dom, elem_of_list_to_set, list_elem_of_fmap.
    rewrite (keys_iff_unannotated pt ha args kw params ut k Hsig Hrun).
    split.
    - intros (p & Hp & <- & Hann). exists p. split; [done|].
      by apply list_elem_of_filter.
    - intros (p & -> & [Hann Hp]%list_elem_of_filter). by exists p. }
  rewrite <- size_dom, Hdom, size_list_to_set, length_fmap; [done|].
  eapply sublist_NoDup; [exact Hnames|].
  apply fmap_sublist, sublist_filter.
Qed.

Lemma inferred_size_witness :
  size (inferred_types named_for_view_types)
  = length (filter (λ p, param_annotation p = None)
              [annotated "i" "int"; unannotated "v"; unannotated "n"]).
Proof.
  apply (inferred_size "parallel_for" named_for_view
           named_for_view_args named_for_view_kwargs).
  - reflexivity.
  - compute_done.
  - vm_compute. reflexivity.
Defined.

(** ** The unpacker followed by the inferencer *)



Example positional_view_inferred :
  get_annotations "parallel_for" positional_view positional_view_args ∅
  = Ok (Some positional_view_types).
Proof. vm_compute. reflexivity. Qed.
